(** * Chronicle [Logger]: a shallow embedding of [src/chronicle/logger.py]

    The Python class [Logger] keeps one mutable string, [entity_prefix],
    and forwards every call to the [rerun] module ([rr.init], [rr.save],
    [rr.set_time], [rr.log]).  The embedding threads a world made of the
    logger object and the state of the [rr] module through a small
    completion monad: a Python statement list finishes normally, leaves
    the enclosing function with [return], or raises. *)

From Stdlib Require Import ZArith Bool Ascii Floats.
From stdpp Require Import base option list strings gmap pretty.

Local Open Scope Z_scope.
Set Warnings "-register-all,-inexact-float".

(** ** Python strings

    A [str] is modelled as a Rocq [string]; its characters stand for the
    code points 0..255. *)

Module PyStr.

(** [c in chars] on characters. *)
Fixpoint mem (c : ascii) (chars : string) : bool :=
  match chars with
  | EmptyString => false
  | String d rest => if Ascii.eqb c d then true else mem c rest
  end.

(** Truth value of a string: [bool(s)] is [len(s) != 0]. *)
Definition truthy (s : string) : bool :=
  match s with
  | EmptyString => false
  | String _ _ => true
  end.

(** [s.lstrip(chars)] *)
Fixpoint lstrip (chars s : string) : string :=
  match s with
  | EmptyString => EmptyString
  | String c rest => if mem c chars then lstrip chars rest else s
  end.

(** [s.rstrip(chars)] *)
Fixpoint rstrip (chars s : string) : string :=
  match s with
  | EmptyString => EmptyString
  | String c rest =>
      match rstrip chars rest with
      | EmptyString => if mem c chars then EmptyString else String c EmptyString
      | r => String c r
      end
  end.

(** [s.strip(chars)] *)
Definition strip (chars s : string) : string := rstrip chars (lstrip chars s).

(** Every character of [s] is one of [chars]. *)
Fixpoint all_in (chars s : string) : bool :=
  match s with
  | EmptyString => true
  | String c rest => mem c chars && all_in chars rest
  end.

(** First and last character. *)
Definition head (s : string) : option ascii :=
  match s with
  | EmptyString => None
  | String c _ => Some c
  end.

Fixpoint last (s : string) : option ascii :=
  match s with
  | EmptyString => None
  | String c EmptyString => Some c
  | String _ rest => last rest
  end.

(** [s] neither starts nor ends with a character of [chars]. *)
Definition clean_ends (chars s : string) : bool :=
  match head s, last s with
  | Some a, Some b => negb (mem a chars) && negb (mem b chars)
  | _, _ => true
  end.

(** [s.split(sep)] for a one-character separator: the list of pieces
    between separators, [""] giving [[""]]. *)
Fixpoint split (sep : ascii) (s : string) : list string :=
  match s with
  | EmptyString => [EmptyString]
  | String c rest =>
      if Ascii.eqb c sep then EmptyString :: split sep rest
      else match split sep rest with
           | piece :: pieces => String c piece :: pieces
           | [] => [String c EmptyString]
           end
  end.

End PyStr.

(** ** Python values, exceptions and completions *)

(** The exceptions that matter here.  [except Exception] catches every
    class derived from [Exception]; [KeyboardInterrupt], [SystemExit] and
    the like derive from [BaseException] only. *)
Inductive exn : Type :=
| TypeError
| ValueError
| RecursionError
| OtherException (name : string)
| BaseExceptionOnly (name : string).

Definition is_Exception (e : exn) : bool :=
  match e with
  | BaseExceptionOnly _ => false
  | _ => true
  end.

(** Result of calling a method that may raise. *)
Inductive result (A : Type) : Type :=
| Ok (a : A)
| Err (e : exn).
Arguments Ok {A} a.
Arguments Err {A} e.

(** An instance of a user class, seen through the three special methods
    the logger can reach: [__str__], [__repr__] and its truth value. *)
Record PyObject : Type := mkPyObject {
  obj_str : result string;
  obj_repr : result string;
  obj_bool : bool
}.

(** Tree-shaped values of type [Any]. *)
Inductive PyVal : Type :=
| PyNone
| PyBool (b : bool)
| PyInt (n : Z)
| PyFloat (x : float)
| PyString (s : string)
| PyList (items : list PyVal)
| PyTuple (items : list PyVal)
| PyDict (items : list (PyVal * PyVal))
| PyObj (o : PyObject).

(** [bool(v)], as used by [if v:] and [v or default]. *)
Definition truthy (v : PyVal) : bool :=
  match v with
  | PyNone => false
  | PyBool b => b
  | PyInt n => negb (n =? 0)
  | PyFloat x => negb (PrimFloat.eqb x 0%float)
  | PyString s => PyStr.truthy s
  | PyList items | PyTuple items => match items with [] => false | _ => true end
  | PyDict items => match items with [] => false | _ => true end
  | PyObj o => obj_bool o
  end.

(** How a block of statements finishes. *)
Inductive completion (A : Type) : Type :=
| Normal (a : A)
| Return (v : PyVal)
| Raise (e : exn).
Arguments Normal {A} a.
Arguments Return {A} v.
Arguments Raise {A} e.

(** ** The [rerun] module, seen from the wrapper

    The sink is the external [rerun] package, which is no part of this
    repository.  It stands here as a recorder: it keeps the calls it
    received, oldest first, and the current coordinate of each timeline,
    which [set_time] overwrites and nothing else touches.  Each logged
    record is stamped with the coordinates in effect when it was logged.
    A sink that refuses a call raises in the caller; that is the sink's
    behaviour and no recorder call raises here. *)

Inductive TimeCoord : Type :=
| Sequence (step : Z)
| Timestamp (time : float).

Inductive Archetype : Type :=
| TextLog (text : string) (level : string)
| Scalars (value : float)
| Image (image : PyVal)
| TextDocument (text : string) (media_type : string).

Inductive SinkCall : Type :=
| CallInit (application_id : string) (spawn : PyVal)
| CallSave (path : PyVal)
| CallSetTime (timeline : string) (coord : TimeCoord)
| CallLog (entity_path : string) (record : Archetype)
    (time : gmap string TimeCoord).

Record Sink : Type := mkSink {
  sink_calls : list SinkCall;
  sink_time : gmap string TimeCoord
}.

Definition fresh_sink : Sink := mkSink [] ∅.

(** ** The logger object and the world *)

Record LoggerObj : Type := mkLogger {
  application_id : string;
  entity_prefix : string;
  config : gmap string PyVal
}.

Record World : Type := mkWorld {
  self : LoggerObj;
  rr : Sink
}.

(** A block of statements over a state [S]: a function of the state
    giving a completion and the state it leaves behind.  Method bodies
    run over the [World]; the constructor, which has no object yet, runs
    over the [Sink]. *)
Definition St (S A : Type) : Type := S → completion A * S.

Abbreviation M := (St World).

Global Instance St_ret {S} : MRet (St S) := λ A a s, (Normal a, s).

Global Instance St_bind {S} : MBind (St S) := λ A B k m s,
  match m s with
  | (Normal a, s') => k a s'
  | (Return v, s') => (Return v, s')
  | (Raise e, s') => (Raise e, s')
  end.

Definition raise {S A} (e : exn) : St S A := λ s, (Raise e, s).
Definition return_ {S A} (v : PyVal) : St S A := λ s, (Return v, s).

(** [try: body finally: cleanup].  The cleanup runs on every completion of
    the body; if the cleanup itself completes abruptly, that completion
    replaces the body's. *)
Definition try_finally {S A} (body : St S A) (cleanup : St S unit) : St S A :=
  λ s, let (c, s1) := body s in
       match cleanup s1 with
       | (Normal _, s2) => (c, s2)
       | (Return v, s2) => (Return v, s2)
       | (Raise e, s2) => (Raise e, s2)
       end.

(** [try: body except Exception: handler]. *)
Definition try_except {S A} (body : St S A) (handler : exn → St S A) : St S A :=
  λ s, match body s with
       | (Raise e, s1) => if is_Exception e then handler e s1 else (Raise e, s1)
       | other => other
       end.

(** Reading and writing [self.entity_prefix]. *)
Definition get_entity_prefix : M string :=
  λ w, (Normal (entity_prefix (self w)), w).

Definition set_entity_prefix (p : string) : M unit :=
  λ w, (Normal tt,
        mkWorld (mkLogger (application_id (self w)) p (config (self w))) (rr w)).

(** The calls into [rr], first on the sink alone. *)
Definition sink_init (app : string) (spawn : PyVal) : St Sink unit :=
  λ s, (Normal tt, mkSink (sink_calls s ++ [CallInit app spawn]) (sink_time s)).

Definition sink_save (path : PyVal) : St Sink unit :=
  λ s, (Normal tt, mkSink (sink_calls s ++ [CallSave path]) (sink_time s)).

Definition sink_set_time (timeline : string) (c : TimeCoord) : St Sink unit :=
  λ s, (Normal tt, mkSink (sink_calls s ++ [CallSetTime timeline c])
                          (<[timeline := c]> (sink_time s))).

Definition sink_log (path : string) (a : Archetype) : St Sink unit :=
  λ s, (Normal tt, mkSink (sink_calls s ++ [CallLog path a (sink_time s)])
                          (sink_time s)).

(** A sink call made from a method: the logger object is untouched. *)
Definition on_rr {A} (f : St Sink A) : M A :=
  λ w, let (c, s) := f (rr w) in (c, mkWorld (self w) s).

Definition rr_set_time (timeline : string) (c : TimeCoord) : M unit :=
  on_rr (sink_set_time timeline c).

Definition rr_log (path : string) (a : Archetype) : M unit :=
  on_rr (sink_log path a).

(** ** Textual forms: [repr], [str] and [json.dumps]

    These are the standard library functions [log_dict] calls.  Values are
    trees, so the encoder's check for circular references never fires
    here.  Two limits of the interpreter do: the conversion of an integer
    to decimal text raises [ValueError] beyond a number of digits, and
    nesting beyond what the recursion limit allows raises
    [RecursionError]. *)

Global Instance result_ret : MRet result := λ A a, Ok a.

Global Instance result_bind : MBind result := λ A B k m,
  match m with
  | Ok a => k a
  | Err e => Err e
  end.

(** A loop that collects one result per item and stops at the first item
    that raises. *)
Definition mapM {A B} (f : A → result B) : list A → result (list B) :=
  fix go (l : list A) : result (list B) :=
    match l with
    | [] => Ok []
    | x :: l' => y ← f x; ys ← go l'; Ok (y :: ys)
    end.

(** [float.__repr__], the shortest decimal string that reads back as the
    same float, is left to the interpreter. *)
Class FloatRepr : Type := float_repr : float → string.

(** The limits of the interpreter that text conversion can meet.
    [int_max_str_digits] is [sys.get_int_max_str_digits()], 4300 unless
    changed, and 0 when the limit is switched off.  How deep values may
    nest before [RecursionError] depends on the recursion limit and on the
    stack already in use when [log_dict] is called, so the two depths are
    left to the interpreter: [json_depth_limit] containers inside one
    another for the encoder, [repr_depth_limit] nested calls for [repr]. *)
Class PyLimits : Type := {
  int_max_str_digits : nat;
  json_depth_limit : nat;
  repr_depth_limit : nat
}.

(** An integer short enough to be written out: the limit is off, or the
    integer has at most [int_max_str_digits] decimal digits, sign apart,
    which is to say that its absolute value is below
    [10 ** int_max_str_digits]. *)
Definition int_fits `{PyLimits} (n : Z) : bool :=
  negb ((0 <? int_max_str_digits)%nat
        && (10 ^ Z.of_nat int_max_str_digits <=? Z.abs n)).

(** [int.__repr__]: decimal text, or [ValueError] beyond the digit
    limit. *)
Definition int_to_str `{PyLimits} (n : Z) : result string :=
  if int_fits n then Ok (pretty n) else Err ValueError.

Definition dquote : ascii := ascii_of_N 34.
Definition squote : ascii := ascii_of_N 39.
Definition backslash : ascii := ascii_of_N 92.

Definition hex_digit (n : N) : ascii :=
  ascii_of_N (if (n <? 10)%N then 48 + n else 87 + n)%N.

(** Two lower-case hexadecimal digits of a code point below 256. *)
Definition hex2 (c : ascii) : string :=
  let n := N_of_ascii c in
  String (hex_digit (n / 16)%N) (String (hex_digit (n mod 16)%N) EmptyString).

(** [sep.join(pieces)] *)
Fixpoint join (sep : string) (pieces : list string) : string :=
  match pieces with
  | [] => EmptyString
  | [p] => p
  | p :: rest => p +:+ sep +:+ join sep rest
  end.

(** [' ' * n] *)
Fixpoint spaces (n : nat) : string :=
  match n with
  | O => EmptyString
  | S m => String " " (spaces m)
  end.

Module PyRepr.

(** [str.isprintable] on one code point below 256. *)
Definition printable (c : ascii) : bool :=
  let n := N_of_ascii c in
  ((32 <=? n) && (n <? 127) || (161 <=? n) && negb (n =? 173))%N.

(** [repr(s)] for a string: single quotes unless the text has a single
    quote and no double quote. *)
Definition quote_for (s : string) : ascii :=
  if PyStr.mem squote s && negb (PyStr.mem dquote s) then dquote else squote.

Definition escape_char (q c : ascii) : string :=
  let n := N_of_ascii c in
  if Ascii.eqb c q || Ascii.eqb c backslash then String backslash (String c EmptyString)
  else if (n =? 9)%N then String backslash "t"
  else if (n =? 10)%N then String backslash "n"
  else if (n =? 13)%N then String backslash "r"
  else if printable c then String c EmptyString
  else String backslash (String "x" (hex2 c)).

Fixpoint escape (q : ascii) (s : string) : string :=
  match s with
  | EmptyString => EmptyString
  | String c rest => escape_char q c +:+ escape q rest
  end.

Definition str_repr (s : string) : string :=
  let q := quote_for s in
  String q (escape q s +:+ String q EmptyString).

Section WithFloatRepr.
Context `{FloatRepr} `{PyLimits}.

(** [repr(v)] called with [depth] calls of [repr] already under way: each
    call, of a container or of one of its items, takes one level of the
    recursion the interpreter allows.  The first failure ends it: a
    [__repr__] that raises, an integer beyond the digit limit, or the
    recursion limit. *)
Fixpoint repr_at (depth : nat) (v : PyVal) : result string :=
  if (repr_depth_limit <=? depth)%nat then Err RecursionError else
  match v with
  | PyNone => Ok "None"
  | PyBool b => Ok (if b then "True" else "False")
  | PyInt n => int_to_str n
  | PyFloat x => Ok (float_repr x)
  | PyString s => Ok (str_repr s)
  | PyList items =>
      pieces ← mapM (repr_at (S depth)) items;
      Ok ("[" +:+ join ", " pieces +:+ "]")
  | PyTuple items =>
      pieces ← mapM (repr_at (S depth)) items;
      match pieces with
      | [p] => Ok ("(" +:+ p +:+ ",)")
      | _ => Ok ("(" +:+ join ", " pieces +:+ ")")
      end
  | PyDict items =>
      pieces ← mapM (λ '(k, x), sk ← repr_at (S depth) k;
                                sx ← repr_at (S depth) x;
                                Ok (sk +:+ ": " +:+ sx)) items;
      Ok ("{" +:+ join ", " pieces +:+ "}")
  | PyObj o => obj_repr o
  end.

(** [repr(v)] *)
Definition repr (v : PyVal) : result string := repr_at 0 v.

(** [str(v)]: the text itself for a string, [__str__] for an object,
    [repr] for everything else. *)
Definition str (v : PyVal) : result string :=
  match v with
  | PyString s => Ok s
  | PyObj o => obj_str o
  | _ => repr v
  end.

End WithFloatRepr.

End PyRepr.

Module Json.

(** [py_encode_basestring_ascii]: the text between double quotes, with
    the quote, the backslash and everything outside [' '..'~'] escaped. *)
Definition escape_char (c : ascii) : string :=
  let n := N_of_ascii c in
  if Ascii.eqb c dquote || Ascii.eqb c backslash then String backslash (String c EmptyString)
  else if (n =? 8)%N then String backslash "b"
  else if (n =? 12)%N then String backslash "f"
  else if (n =? 10)%N then String backslash "n"
  else if (n =? 13)%N then String backslash "r"
  else if (n =? 9)%N then String backslash "t"
  else if ((32 <=? n) && (n <=? 126))%N then String c EmptyString
  else String backslash ("u00" +:+ hex2 c).

Fixpoint escape (s : string) : string :=
  match s with
  | EmptyString => EmptyString
  | String c rest => escape_char c +:+ escape rest
  end.

Definition encode_basestring_ascii (s : string) : string :=
  String dquote (escape s +:+ String dquote EmptyString).

Section WithFloatRepr.
Context `{FloatRepr} `{PyLimits}.

(** [floatstr] with [allow_nan=True]. *)
Definition floatstr (x : float) : string :=
  if negb (PrimFloat.eqb x x) then "NaN"
  else if PrimFloat.eqb x infinity then "Infinity"
  else if PrimFloat.eqb x neg_infinity then "-Infinity"
  else float_repr x.

(** A dictionary key as JSON text; with [skipkeys=False] any other key
    raises [TypeError], and an integer key beyond the digit limit raises
    [ValueError]. *)
Definition encode_key (k : PyVal) : result string :=
  match k with
  | PyString s => Ok s
  | PyFloat x => Ok (floatstr x)
  | PyBool true => Ok "true"
  | PyBool false => Ok "false"
  | PyNone => Ok "null"
  | PyInt n => int_to_str n
  | _ => Err TypeError
  end.

Definition newline_indent (indent level : nat) : string :=
  String (ascii_of_N 10) (spaces (indent * level)).

(** [_iterencode(o, level)] of an encoder made with [indent] and
    [default]; the chunks it yields are concatenated.  [level] counts the
    containers around [o]; a container met when [json_depth_limit] of
    them are already open raises [RecursionError]. *)
Fixpoint iterencode (indent : nat) (default : PyVal → result string)
    (level : nat) (o : PyVal) : result string :=
  match o with
  | PyString s => Ok (encode_basestring_ascii s)
  | PyNone => Ok "null"
  | PyBool true => Ok "true"
  | PyBool false => Ok "false"
  | PyInt n => int_to_str n
  | PyFloat x => Ok (floatstr x)
  | PyList items | PyTuple items =>
      if (json_depth_limit <=? level)%nat then Err RecursionError else
      match items with
      | [] => Ok "[]"
      | _ =>
          pieces ← mapM (iterencode indent default (S level)) items;
          Ok ("[" +:+ newline_indent indent (S level)
              +:+ join ("," +:+ newline_indent indent (S level)) pieces
              +:+ newline_indent indent level +:+ "]")
      end
  | PyDict items =>
      if (json_depth_limit <=? level)%nat then Err RecursionError else
      match items with
      | [] => Ok "{}"
      | _ =>
          pieces ← mapM (λ '(k, x),
                           sk ← encode_key k;
                           sx ← iterencode indent default (S level) x;
                           Ok (encode_basestring_ascii sk +:+ ": " +:+ sx)) items;
          Ok ("{" +:+ newline_indent indent (S level)
              +:+ join ("," +:+ newline_indent indent (S level)) pieces
              +:+ newline_indent indent level +:+ "}")
      end
  | PyObj _ => s ← default o; Ok (encode_basestring_ascii s)
  end.

(** [json.dumps(obj, indent=indent, default=default)] *)
Definition dumps (obj : PyVal) (indent : nat) (default : PyVal → result string)
    : result string :=
  iterencode indent default 0 obj.

End WithFloatRepr.

End Json.

(** [P] holds of every integer inside [v], keys included. *)
Fixpoint all_ints (P : Z → bool) (v : PyVal) : bool :=
  match v with
  | PyInt n => P n
  | PyList items | PyTuple items => forallb (all_ints P) items
  | PyDict items => forallb (λ '(k, x), all_ints P k && all_ints P x) items
  | _ => true
  end.

(** How many containers deep [v] goes: 0 for a value that is no
    container. *)
Fixpoint nesting (v : PyVal) : nat :=
  match v with
  | PyList items | PyTuple items =>
      S (foldr (λ x deepest, Nat.max (nesting x) deepest) 0%nat items)
  | PyDict items =>
      S (foldr (λ '(k, x) deepest,
                  Nat.max (Nat.max (nesting k) (nesting x)) deepest) 0%nat items)
  | _ => 0%nat
  end.

(** [n] lists inside one another: [[[...[]...]]]. *)
Fixpoint deep (n : nat) : PyVal :=
  match n with
  | O => PyList []
  | S m => PyList [deep m]
  end.

(** A stand-in for [float.__repr__] in examples that hold no float. *)
Definition no_float_repr : FloatRepr := λ _, EmptyString.

(** The limits the closed examples run under: the default digit limit
    and room for a hundred levels of nesting. *)
Global Instance example_limits : PyLimits := {|
  int_max_str_digits := 4300;
  json_depth_limit := 100;
  repr_depth_limit := 100
|}.

(** A library call made from a method: its exception, if any, is raised
    in the caller. *)
Definition call {S A} (r : result A) : St S A :=
  λ s, match r with
       | Ok a => (Normal a, s)
       | Err e => (Raise e, s)
       end.

(** ** The class [Logger] *)

Module Logger.

(** [Logger.__init__(application_id, entity_prefix=None, config=None)]:
    builds the object and initialises the sink. *)
Definition __init__ (app : string) (prefix : option string)
    (cfg : option (gmap string PyVal)) : St Sink LoggerObj :=
  let self_entity_prefix :=
    match prefix with
    | Some p => if PyStr.truthy p then p else ""
    | None => ""
    end in
  let self_config :=
    match cfg with
    | Some c => if (size c =? 0)%nat then ∅ else c
    | None => ∅
    end in
  let spawn := default (PyBool true) (self_config !! "spawn_viewer") in
  let save_path := default PyNone (self_config !! "save_path") in
  sink_init app spawn;;
  (if truthy save_path then sink_save save_path else mret tt);;
  mret (mkLogger app self_entity_prefix self_config).

Definition _get_path (path : string) : M string :=
  prefix ← get_entity_prefix;
  if PyStr.truthy prefix
  then mret (PyStr.strip "/" (prefix +:+ "/" +:+ path))
  else mret path.

Definition info (message : string) : M unit :=
  p ← _get_path "logs/info"; rr_log p (TextLog message "INFO").

Definition warning (message : string) : M unit :=
  p ← _get_path "logs/warning"; rr_log p (TextLog message "WARN").

Definition debug (message : string) : M unit :=
  p ← _get_path "logs/debug"; rr_log p (TextLog message "DEBUG").

Definition error (message : string) : M unit :=
  p ← _get_path "logs/error"; rr_log p (TextLog message "ERROR").

Definition critical (message : string) : M unit :=
  p ← _get_path "logs/critical"; rr_log p (TextLog message "CRITICAL").

Definition log_scalar (path : string) (value : float) (step : option Z) : M unit :=
  match step with
  | Some n => rr_set_time "step" (Sequence n)
  | None => mret tt
  end;;
  p ← _get_path path; rr_log p (Scalars value).

Definition log_image (path : string) (image : PyVal) : M unit :=
  p ← _get_path path; rr_log p (Image image).

Definition log_dict `{FloatRepr} `{PyLimits} (path : string) (dictionary : list (PyVal * PyVal))
    : M unit :=
  content ← try_except
              (call (Json.dumps (PyDict dictionary) 2 PyRepr.str))
              (λ _, call (PyRepr.str (PyDict dictionary)));
  p ← _get_path path; rr_log p (TextDocument content "text/markdown").

Definition set_time_sequence (timeline : string) (step : Z) : M unit :=
  rr_set_time timeline (Sequence step).

Definition set_time_seconds (timeline : string) (time : float) : M unit :=
  rr_set_time timeline (Timestamp time).

(** [with logger.batch(): body]: the generator only yields. *)
Definition batch {A} (body : M A) : M A := body.

(** [context] is a generator turned into a context manager.  Entering
    runs it up to [yield] and leaves [old_prefix] in the suspended frame;
    leaving resumes it, which runs the [finally] clause. *)
Definition context_enter (path_prefix : string) : M string :=
  old_prefix ← get_entity_prefix;
  current ← get_entity_prefix;
  (if PyStr.truthy current
   then set_entity_prefix (current +:+ "/" +:+ path_prefix)
   else set_entity_prefix path_prefix);;
  mret old_prefix.

Definition context_exit (old_prefix : string) : M unit :=
  set_entity_prefix old_prefix.

(** [with logger.context(path_prefix): body] *)
Definition context {A} (path_prefix : string) (body : M A) : M A :=
  old_prefix ← context_enter path_prefix;
  try_finally body (context_exit old_prefix).

End Logger.

(** ** Entity paths *)

Definition sep : ascii := "/"%char.

(** The segments of a slash-separated path. *)
Definition segments (path : string) : list string := PyStr.split sep path.

(** Non-empty segments joined by single separators. *)
Definition well_formed (path : string) : bool :=
  forallb PyStr.truthy (segments path).

(** ** The five text-logging methods, by name *)

Inductive TextMethod : Type := Info | Warning | Debug | Error | Critical.

Definition method_name (m : TextMethod) : string :=
  match m with
  | Info => "info"
  | Warning => "warning"
  | Debug => "debug"
  | Error => "error"
  | Critical => "critical"
  end.

Definition text_method (m : TextMethod) : string → M unit :=
  match m with
  | Info => Logger.info
  | Warning => Logger.warning
  | Debug => Logger.debug
  | Error => Logger.error
  | Critical => Logger.critical
  end.

(** The sink's severity levels, as [rerun] spells them. *)
Definition severity (m : TextMethod) : string :=
  match m with
  | Info => "INFO"
  | Warning => "WARN"
  | Debug => "DEBUG"
  | Error => "ERROR"
  | Critical => "CRITICAL"
  end.

(** [s.upper()] on the letters a..z. *)
Definition upper_char (c : ascii) : ascii :=
  let n := N_of_ascii c in
  if ((97 <=? n) && (n <=? 122))%N then ascii_of_N (n - 32) else c.

Fixpoint upper (s : string) : string :=
  match s with
  | EmptyString => EmptyString
  | String c rest => String (upper_char c) (upper rest)
  end.

(** ** Sessions: construction followed by scope entries and exits

    A session is the world together with the suspended [context]
    generators, innermost first; each frame holds its [old_prefix]. *)

Inductive ScopeEvent : Type :=
| Enter (path_prefix : string)
| Exit.

Record Session : Type := mkSession {
  world : World;
  frames : list string
}.

Definition scope_step (ev : ScopeEvent) (st : Session) : Session :=
  match ev with
  | Enter path_prefix =>
      match Logger.context_enter path_prefix (world st) with
      | (Normal old_prefix, w) => mkSession w (old_prefix :: frames st)
      | (_, w) => mkSession w (frames st)
      end
  | Exit =>
      match frames st with
      | old_prefix :: rest =>
          mkSession (Logger.context_exit old_prefix (world st)).2 rest
      | [] => st
      end
  end.

Inductive reachable : Session → Prop :=
| reach_init app prefix cfg s obj s' :
    Logger.__init__ app prefix cfg s = (Normal obj, s') →
    reachable (mkSession (mkWorld obj s') [])
| reach_step ev st :
    reachable st → reachable (scope_step ev st).

(** The path prefixes a run enters with are all well formed. *)
Inductive reachable_wf : Session → Prop :=
| reach_wf_init app prefix cfg s obj s' :
    Logger.__init__ app prefix cfg s = (Normal obj, s') →
    from_option (λ p, p = EmptyString ∨ well_formed p = true) True prefix →
    reachable_wf (mkSession (mkWorld obj s') [])
| reach_wf_enter path_prefix st :
    reachable_wf st → well_formed path_prefix = true →
    reachable_wf (scope_step (Enter path_prefix) st)
| reach_wf_exit st :
    reachable_wf st → reachable_wf (scope_step Exit st).


(** ** Notions used in the statements *)

(** What one [rr.log] from a method leaves behind. *)
Definition logged (path : string) (record : Archetype) (w : World) : World :=
  mkWorld (self w)
    (mkSink (sink_calls (rr w) ++ [CallLog path record (sink_time (rr w))])
       (sink_time (rr w))).

(** The path a method resolves in world [w]. *)
Definition resolved (relative : string) (w : World) : string :=
  if PyStr.truthy (entity_prefix (self w))
  then PyStr.strip "/" (entity_prefix (self w) +:+ "/" +:+ relative)
  else relative.

(** ** Programs over the logger

    Client code as the usage example writes it: calls of the logger's
    methods in sequence, [with logger.batch():] and
    [with logger.context(...):] blocks around them, and statements of the
    client's own that raise or return. *)

Inductive Stmt : Type :=
| SPass
| SText (m : TextMethod) (message : string)
| SLogScalar (path : string) (value : float) (step : option Z)
| SLogImage (path : string) (image : PyVal)
| SLogDict (path : string) (dictionary : list (PyVal * PyVal))
| SSetTimeSequence (timeline : string) (step : Z)
| SSetTimeSeconds (timeline : string) (time : float)
| SRaise (e : exn)
| SReturn (v : PyVal)
| SSeq (first second : Stmt)
| SBatch (body : Stmt)
| SContext (path_prefix : string) (body : Stmt).

Fixpoint exec `{FloatRepr} `{PyLimits} (s : Stmt) : M unit :=
  match s with
  | SPass => mret ()
  | SText m message => text_method m message
  | SLogScalar path value step => Logger.log_scalar path value step
  | SLogImage path image => Logger.log_image path image
  | SLogDict path dictionary => Logger.log_dict path dictionary
  | SSetTimeSequence timeline step => Logger.set_time_sequence timeline step
  | SSetTimeSeconds timeline time => Logger.set_time_seconds timeline time
  | SRaise e => raise e
  | SReturn v => return_ v
  | SSeq first second => exec first;; exec second
  | SBatch body => Logger.batch (exec body)
  | SContext path_prefix body => Logger.context path_prefix (exec body)
  end.

(** Some statement of the program sets a coordinate of [timeline]. *)
Fixpoint sets_time (timeline : string) (s : Stmt) : bool :=
  match s with
  | SLogScalar _ _ (Some _) => String.eqb timeline "step"
  | SSetTimeSequence t _ | SSetTimeSeconds t _ => String.eqb timeline t
  | SSeq first second => sets_time timeline first || sets_time timeline second
  | SBatch body | SContext _ body => sets_time timeline body
  | _ => false
  end.

(** [with logger.context(p1): with logger.context(p2): ... body] *)
Definition nested (path_prefixes : list string) {A} (body : M A) : M A :=
  foldr (λ p inner, Logger.context p inner) body path_prefixes.

(** [s.startswith(prefix)] *)
Fixpoint startswith (s prefix : string) {struct prefix} : bool :=
  match prefix, s with
  | EmptyString, _ => true
  | String c prefix', String d s' => Ascii.eqb c d && startswith s' prefix'
  | String _ _, EmptyString => false
  end.

(** The entity path of a logged record starts with [prefix]; calls that
    log nothing pass. *)
Definition logged_under (prefix : string) (c : SinkCall) : bool :=
  match c with
  | CallLog entity_path _ _ => startswith entity_path prefix
  | _ => true
  end.

(** A logged record is stamped with coordinate [coord] on [timeline];
    calls that log nothing pass. *)
Definition stamped (timeline : string) (coord : option TimeCoord)
    (c : SinkCall) : Prop :=
  match c with
  | CallLog _ _ time => time !! timeline = coord
  | _ => True
  end.

(** Plain data: every dictionary key, at any depth, is a string, a
    number, a boolean or [None], and there is no object of a user
    class. *)
Fixpoint json_native (v : PyVal) : bool :=
  match v with
  | PyList items | PyTuple items => forallb json_native items
  | PyDict items =>
      forallb (λ '(k, x),
                 match k with
                 | PyString _ | PyFloat _ | PyBool _ | PyNone | PyInt _ => true
                 | _ => false
                 end && json_native x) items
  | PyObj _ => false
  | _ => true
  end.

(** * Properties *)

(** ** Strings *)

#[local] Arguments String.append !_ _ : simpl nomatch.

Module PyStrFacts.
Import PyStr.

Lemma append_cons (c : ascii) (s t : string) :
  String c s +:+ t = String c (s +:+ t).
Proof. reflexivity. Qed.

Lemma append_nil_r (s : string) : s +:+ EmptyString = s.
Proof. induction s as [|c s IH]; [done | by simpl; f_equal]. Qed.

Lemma append_assoc (a b c : string) : (a +:+ b) +:+ c = a +:+ b +:+ c.
Proof. induction a as [|x a IH]; [done | by simpl; f_equal]. Qed.

Lemma truthy_true (s : string) : truthy s = true ↔ s ≠ EmptyString.
Proof. destruct s; simpl; split; intros; congruence. Qed.

Lemma truthy_false (s : string) : truthy s = false ↔ s = EmptyString.
Proof. destruct s; simpl; split; intros; congruence. Qed.

(** [lstrip] removes a run of [chars] from the front and stops at the
    first other character. *)
Lemma lstrip_spec (chars s : string) :
  ∃ l, s = l +:+ lstrip chars s ∧ all_in chars l = true ∧
       from_option (λ c, mem c chars = false) True (head (lstrip chars s)).
Proof.
  induction s as [|c s IH]; simpl.
  - by exists EmptyString.
  - destruct (mem c chars) eqn:Hc.
    + destruct IH as (l & Hl & Hall & Hhd).
      exists (String c l). simpl. rewrite Hc, Hall. by rewrite <- Hl.
    + exists EmptyString. simpl. by rewrite Hc.
Qed.

Lemma rstrip_cons (chars : string) (c : ascii) (s : string) :
  rstrip chars (String c s) = EmptyString ∨
  ∃ r, rstrip chars (String c s) = String c r.
Proof.
  simpl. destruct (rstrip chars s); [destruct (mem c chars)|]; eauto.
Qed.

(** [rstrip] removes a run of [chars] from the back and stops at the last
    other character. *)
Lemma rstrip_spec (chars s : string) :
  ∃ t, s = rstrip chars s +:+ t ∧ all_in chars t = true ∧
       from_option (λ c, mem c chars = false) True (last (rstrip chars s)).
Proof.
  induction s as [|c s IH]; simpl.
  - by exists EmptyString.
  - destruct IH as (t & Ht & Hall & Hlast).
    destruct (rstrip chars s) as [|d r] eqn:Hr.
    + destruct (mem c chars) eqn:Hc.
      * exists (String c t). simpl in *. subst t. by rewrite Hc, Hall.
      * exists t. simpl in *. by subst t.
    + exists t. simpl in *. by rewrite <- Ht.
Qed.

Lemma rstrip_head (chars s : string) :
  from_option (λ c, mem c chars = false) True (head s) →
  from_option (λ c, mem c chars = false) True (head (rstrip chars s)).
Proof.
  destruct s as [|c s]; [done|]. intros Hc.
  destruct (rstrip_cons chars c s) as [-> | [r ->]]; done.
Qed.

Lemma head_last_none (s : string) : head s = None ↔ last s = None.
Proof.
  split.
  - destruct s; [done | discriminate].
  - induction s as [|c s IH]; [done|]. simpl.
    destruct s; [discriminate | intros Hs; by apply IH in Hs].
Qed.

(** What [strip] returns: the text between a leading and a trailing run
    of [chars], itself free of them at both ends. *)
Lemma strip_spec (chars s : string) :
  ∃ l t, s = l +:+ strip chars s +:+ t ∧
         all_in chars l = true ∧ all_in chars t = true ∧
         clean_ends chars (strip chars s) = true.
Proof.
  unfold strip.
  destruct (lstrip_spec chars s) as (l & Hl & Hall_l & Hhd).
  destruct (rstrip_spec chars (lstrip chars s)) as (t & Ht & Hall_t & Hlast).
  exists l, t. split; [by rewrite <- Ht|]. do 2 (split; [done|]).
  apply (rstrip_head chars) in Hhd. unfold clean_ends.
  destruct (head _) as [a|], (last _) as [b|]; simpl in *; try done.
  by rewrite Hhd, Hlast.
Qed.

(** A string with clean ends is left alone. *)
Lemma lstrip_id (chars s : string) :
  from_option (λ c, mem c chars = false) True (head s) → lstrip chars s = s.
Proof. destruct s as [|c s]; simpl; [done|]. by intros ->. Qed.

Lemma rstrip_id (chars s : string) :
  from_option (λ c, mem c chars = false) True (last s) → rstrip chars s = s.
Proof.
  induction s as [|c s IH]; [done|]. intros Hl.
  destruct s as [|d s].
  - simpl in *. by rewrite Hl.
  - change (last (String c (String d s))) with (last (String d s)) in Hl.
    specialize (IH Hl). change (rstrip chars (String c (String d s))) with
      (match rstrip chars (String d s) with
       | EmptyString => if mem c chars then EmptyString else String c EmptyString
       | r => String c r end).
    by rewrite IH.
Qed.

Lemma strip_id (chars s : string) :
  from_option (λ c, mem c chars = false) True (head s) →
  from_option (λ c, mem c chars = false) True (last s) →
  strip chars s = s.
Proof. intros Hh Hl. unfold strip. rewrite (lstrip_id _ _ Hh). by apply rstrip_id. Qed.

End PyStrFacts.

(** ** Path composition and scopes *)

Lemma world_eta (w : World) :
  mkWorld (mkLogger (application_id (self w)) (entity_prefix (self w))
             (config (self w))) (rr w) = w.
Proof. by destruct w as [[? ? ?] ?]. Qed.

(** [_get_path] computes its result from the prefix and the argument and
    leaves the world as it found it. *)
Lemma get_path_eq (relative : string) (w : World) :
  Logger._get_path relative w =
  (Normal (if PyStr.truthy (entity_prefix (self w))
           then PyStr.strip "/" (entity_prefix (self w) +:+ "/" +:+ relative)
           else relative), w).
Proof.
  unfold Logger._get_path, mbind, St_bind, get_entity_prefix, mret, St_ret.
  by destruct (PyStr.truthy _).
Qed.

Lemma get_path_self (relative : string) (w w' : World) :
  entity_prefix (self w') = entity_prefix (self w) →
  (Logger._get_path relative w').1 = (Logger._get_path relative w).1.
Proof. intros E. rewrite !get_path_eq. simpl. by rewrite E. Qed.

(** C2: with an empty prefix [_get_path] returns the relative path
    unchanged; otherwise it returns [prefix + "/" + relative] without the
    slashes at its two ends: the concatenation is a run of slashes, the
    result, and a run of slashes, and the result neither starts nor ends
    with a slash.  The world is unchanged, and two calls in a row return
    the same string. *)
Theorem get_path_spec (relative : string) (w : World) :
  (entity_prefix (self w) = EmptyString →
     Logger._get_path relative w = (Normal relative, w)) ∧
  (entity_prefix (self w) ≠ EmptyString →
     ∃ l r t,
       entity_prefix (self w) +:+ "/" +:+ relative = l +:+ r +:+ t ∧
       PyStr.all_in "/" l = true ∧ PyStr.all_in "/" t = true ∧
       PyStr.clean_ends "/" r = true ∧
       Logger._get_path relative w = (Normal r, w)) ∧
  (∃ r, (x ← Logger._get_path relative;
         y ← Logger._get_path relative; mret (x, y)) w = (Normal (r, r), w)).
Proof.
  split; [|split].
  - intros E. rewrite get_path_eq. by rewrite E.
  - intros NE. apply PyStrFacts.truthy_true in NE.
    destruct (PyStrFacts.strip_spec "/"
                (entity_prefix (self w) +:+ "/" +:+ relative))
      as (l & t & Hs & Hl & Ht & Hc).
    exists l, (PyStr.strip "/" (entity_prefix (self w) +:+ "/" +:+ relative)), t.
    repeat split; try done. rewrite get_path_eq. by rewrite NE.
  - eexists. unfold mbind, St_bind. rewrite !get_path_eq. reflexivity.
Qed.

Lemma get_path_spec_witness :
  Logger._get_path "loss" (mkWorld (mkLogger "app" EmptyString ∅) fresh_sink)
    = (Normal "loss", mkWorld (mkLogger "app" EmptyString ∅) fresh_sink) ∧
  ∃ l r t,
    "exp" +:+ "/" +:+ "loss/" = l +:+ r +:+ t ∧
    PyStr.all_in "/" l = true ∧ PyStr.all_in "/" t = true ∧
    PyStr.clean_ends "/" r = true ∧
    Logger._get_path "loss/" (mkWorld (mkLogger "app" "exp" ∅) fresh_sink)
      = (Normal r, mkWorld (mkLogger "app" "exp" ∅) fresh_sink).
Proof.
  split.
  - apply (get_path_spec "loss" (mkWorld (mkLogger "app" EmptyString ∅) fresh_sink)).
    reflexivity.
  - apply (get_path_spec "loss/" (mkWorld (mkLogger "app" "exp" ∅) fresh_sink)).
    simpl. discriminate.
Defined.

(** The example of C3 as the code computes it. *)
Example get_path_stray_separators :
  (Logger._get_path "/c" (mkWorld (mkLogger "app" "a/b/" ∅) fresh_sink)).1
    = Normal "a/b///c".
Proof. reflexivity. Qed.

(** C3, as stated, fails: with prefix ["a/b/"] and relative path ["/c"]
    the result is ["a/b///c"], which is not ["a/b/c"]. *)
Lemma get_path_stray_separators_counterexample :
  (Logger._get_path "/c" (mkWorld (mkLogger "app" "a/b/" ∅) fresh_sink)).1
    = Normal "a/b///c" ∧
  Normal "a/b///c" ≠ @Normal string "a/b/c".
Proof. split; [reflexivity | discriminate]. Qed.

(** C3, amended: with prefix ["a/b/"] and relative path ["/c"],
    [_get_path] returns ["a/b///c"]: only the two ends of the
    concatenation are stripped, and the separators that meet in the
    middle stay.  With prefix ["a/b"] and relative path ["c"] it returns
    ["a/b/c"]. *)
Theorem get_path_keeps_inner_separators (app : string)
    (cfg : gmap string PyVal) (s : Sink) :
  Logger._get_path "/c" (mkWorld (mkLogger app "a/b/" cfg) s)
    = (Normal "a/b///c", mkWorld (mkLogger app "a/b/" cfg) s) ∧
  Logger._get_path "c" (mkWorld (mkLogger app "a/b" cfg) s)
    = (Normal "a/b/c", mkWorld (mkLogger app "a/b" cfg) s).
Proof. split; by rewrite get_path_eq. Qed.

(** ** Scoped prefixes *)

(** The prefix a scope entered from [old_prefix] runs its body with. *)
Lemma context_enter_eq (path_prefix : string) (w : World) :
  Logger.context_enter path_prefix w =
  (Normal (entity_prefix (self w)),
   mkWorld (mkLogger (application_id (self w))
              (if PyStr.truthy (entity_prefix (self w))
               then entity_prefix (self w) +:+ "/" +:+ path_prefix
               else path_prefix)
              (config (self w))) (rr w)).
Proof.
  unfold Logger.context_enter, mbind, St_bind, get_entity_prefix,
    set_entity_prefix, mret, St_ret.
  by destruct (PyStr.truthy _).
Qed.

(** A scope is its body run in the entered world, followed by the
    restoring assignment, whatever the body's completion. *)
Lemma context_eq {A} (path_prefix : string) (body : M A) (w : World) :
  Logger.context path_prefix body w =
  let r := body (Logger.context_enter path_prefix w).2 in
  (r.1, mkWorld (mkLogger (application_id (self r.2)) (entity_prefix (self w))
                   (config (self r.2))) (rr r.2)).
Proof.
  unfold Logger.context, mbind at 1, St_bind at 1.
  rewrite context_enter_eq. unfold try_finally. simpl.
  by destruct (body _) as [c w1].
Qed.

(** C1: whatever the body does and however it completes (normally, by
    [return], or by raising), after [with logger.context(path_prefix)] the
    prefix is the one before entry, the scope completes as its body did,
    a probe [_get_path] answers as before entry, and so does a probe made
    after catching the body's exception. *)
Theorem context_restores_prefix {A} (path_prefix : string) (body : M A)
    (w : World) :
  entity_prefix (self (Logger.context path_prefix body w).2)
    = entity_prefix (self w) ∧
  (Logger.context path_prefix body w).1
    = (body (Logger.context_enter path_prefix w).2).1 ∧
  (∀ relative,
     (Logger._get_path relative (Logger.context path_prefix body w).2).1
       = (Logger._get_path relative w).1) ∧
  (∀ relative,
     ((try_except (Logger.context path_prefix body;; mret ()) (λ _, mret ());;
       Logger._get_path relative) w).1
     = match (body (Logger.context_enter path_prefix w).2).1 with
       | Normal _ => (Logger._get_path relative w).1
       | Return v => Return v
       | Raise e =>
           if is_Exception e then (Logger._get_path relative w).1 else Raise e
       end).
Proof.
  rewrite context_eq. cbv zeta. simpl.
  split; [done|]. split; [done|]. split.
  - intros relative. by apply get_path_self.
  - intros relative.
    unfold try_except, mbind, St_bind. rewrite context_eq. cbv zeta. simpl.
    destruct (body _) as [[a|v|e] w1]; simpl; try done.
    + by apply get_path_self.
    + destruct (is_Exception e); simpl; [by apply get_path_self | done].
Qed.

(** The three ways out of a scope, on a logger whose prefix is ["p"]. *)
Example context_exit_paths :
  let w := mkWorld (mkLogger "app" "p" ∅) fresh_sink in
  (Logger.context "q" (Logger.info "x") w).1 = Normal () ∧
  (Logger.context "q" (Logger.info "x";; @return_ _ () PyNone) w).1 = @Return () PyNone ∧
  (Logger.context "q" (Logger.info "x";; @raise _ () ValueError) w).1 = @Raise () ValueError ∧
  entity_prefix (self (Logger.context "q" (Logger.info "x") w).2) = "p" ∧
  entity_prefix (self (Logger.context "q" (Logger.info "x";; @return_ _ () PyNone) w).2) = "p" ∧
  entity_prefix (self (Logger.context "q" (Logger.info "x";; @raise _ () ValueError) w).2) = "p".
Proof. repeat split. Qed.

(** C4: entering a scope sets the prefix to [old + "/" + path_prefix] when
    the old prefix is not empty and to [path_prefix] when it is; so inside
    [context(a)] then [context(b)] the prefix is [outer/a/b], after the
    inner scope it is [outer/a], and after the outer scope it is [outer]
    again; from an empty outer prefix these are [a/b], [a] and the empty
    prefix. *)
Theorem context_composes (a b : string) (w : World) :
  (entity_prefix (self w) ≠ EmptyString →
     Logger.context a get_entity_prefix w
       = (Normal (entity_prefix (self w) +:+ "/" +:+ a), w)) ∧
  (entity_prefix (self w) = EmptyString →
     Logger.context a get_entity_prefix w = (Normal a, w)) ∧
  (entity_prefix (self w) ≠ EmptyString →
     (inner ← Logger.context a
                (x ← Logger.context b get_entity_prefix;
                 y ← get_entity_prefix; mret (x, y));
      z ← get_entity_prefix; mret (inner, z)) w
     = (Normal ((entity_prefix (self w) +:+ "/" +:+ a +:+ "/" +:+ b,
                 entity_prefix (self w) +:+ "/" +:+ a),
                entity_prefix (self w)), w)) ∧
  (entity_prefix (self w) = EmptyString → a ≠ EmptyString →
     (inner ← Logger.context a
                (x ← Logger.context b get_entity_prefix;
                 y ← get_entity_prefix; mret (x, y));
      z ← get_entity_prefix; mret (inner, z)) w
     = (Normal ((a +:+ "/" +:+ b, a), EmptyString), w)).
Proof.
  split; [|split; [|split]].
  - intros NE%PyStrFacts.truthy_true. rewrite context_eq, context_enter_eq.
    simpl. rewrite NE. simpl. by rewrite world_eta.
  - intros E. rewrite context_eq, context_enter_eq. simpl. rewrite E. simpl.
    rewrite <- E. by rewrite world_eta.
  - intros NE. destruct (entity_prefix (self w)) as [|c outer] eqn:E; [done|].
    unfold mbind at 1, St_bind at 1. rewrite context_eq, context_enter_eq.
    cbv zeta. rewrite E. simpl. rewrite PyStrFacts.append_assoc. simpl.
    unfold mbind, St_bind, get_entity_prefix, mret, St_ret. simpl.
    rewrite <- E. by rewrite world_eta.
  - intros E NE. destruct w as [[app p cfg] s]. simpl in E. subst p.
    destruct a as [|c a]; [done | reflexivity].
Qed.

Lemma context_composes_witness :
  let w := mkWorld (mkLogger "app" "run" ∅) fresh_sink in
  (inner ← Logger.context "a"
             (x ← Logger.context "b" get_entity_prefix;
              y ← get_entity_prefix; mret (x, y));
   z ← get_entity_prefix; mret (inner, z)) w
  = (Normal (("run/a/b", "run/a"), "run"), w).
Proof.
  apply (context_composes "a" "b" (mkWorld (mkLogger "app" "run" ∅) fresh_sink)).
  simpl. discriminate.
Defined.

(** ** Forwarding to the sink *)

Lemma resolved_get_path (relative : string) (w : World) :
  Logger._get_path relative w = (Normal (resolved relative w), w).
Proof. apply get_path_eq. Qed.

Lemma log_at_resolved (relative : string) (record : Archetype) (w : World) :
  (p ← Logger._get_path relative; rr_log p record) w
  = (Normal (), logged (resolved relative w) record w).
Proof.
  unfold mbind, St_bind. by rewrite resolved_get_path.
Qed.

Lemma text_method_eq (m : TextMethod) (message : string) (w : World) :
  text_method m message w
  = (Normal (),
     logged (resolved ("logs/" +:+ method_name m) w)
       (TextLog message (severity m)) w).
Proof. destruct m; apply log_at_resolved. Qed.

(** C5: each of [info], [warning], [debug], [error] and [critical] adds
    exactly one call to the sink, a text record logged at
    [_get_path("logs/<method name>")], and changes nothing else.  Its
    level is the sink's name for the method's severity (INFO, WARN,
    DEBUG, ERROR, CRITICAL): the start of the method's name in capitals,
    different for each method. *)
Theorem text_methods_forward (m : TextMethod) (message : string) (w : World) :
  ∃ path,
    Logger._get_path ("logs/" +:+ method_name m) w = (Normal path, w) ∧
    text_method m message w
      = (Normal (), logged path (TextLog message (severity m)) w) ∧
    String.prefix (severity m) (upper (method_name m)) = true ∧
    (∀ m', severity m' = severity m → m' = m).
Proof.
  exists (resolved ("logs/" +:+ method_name m) w).
  split; [apply resolved_get_path|]. split; [|split].
  - apply text_method_eq.
  - by destruct m.
  - intros m'. destruct m, m'; simpl; congruence.
Qed.

(** Timeline coordinates survive a logged record. *)
Lemma logged_time (path : string) (record : Archetype) (w : World) :
  sink_time (rr (logged path record w)) = sink_time (rr w).
Proof. done. Qed.

Lemma log_scalar_step (path : string) (value : float) (n : Z) (w : World) :
  Logger.log_scalar path value (Some n) w
  = (Normal (),
     mkWorld (self w)
       (mkSink (sink_calls (rr w) ++
                  [CallSetTime "step" (Sequence n);
                   CallLog (resolved path w) (Scalars value)
                     (<["step" := Sequence n]> (sink_time (rr w)))])
          (<["step" := Sequence n]> (sink_time (rr w))))).
Proof.
  unfold Logger.log_scalar, mbind at 1, St_bind at 1.
  unfold rr_set_time, on_rr, sink_set_time. cbv beta iota zeta.
  rewrite log_at_resolved. unfold logged, resolved. simpl.
  by rewrite <- app_assoc.
Qed.

Lemma log_scalar_no_step (path : string) (value : float) (w : World) :
  Logger.log_scalar path value None w
  = (Normal (), logged (resolved path w) (Scalars value) w).
Proof.
  unfold Logger.log_scalar, mbind at 1, St_bind at 1, mret at 1, St_ret at 1.
  apply log_at_resolved.
Qed.

(** C6: with a step, [log_scalar] first sets the sequence coordinate of
    the timeline ["step"] and then logs one scalar record at
    [_get_path(path)], stamped with that coordinate; without a step it
    only logs the record and the coordinates stay as they were.  So after
    [log_scalar(p1, v1, step=5)], a text log and [log_scalar(p2, v2)], the
    second scalar is recorded at step 5, and step 5 is still current. *)
Theorem log_scalar_timeline (path : string) (value : float) (w : World) :
  (∀ n,
     ∃ p, Logger._get_path path w = (Normal p, w) ∧
       Logger.log_scalar path value (Some n) w
       = (Normal (),
          mkWorld (self w)
            (mkSink (sink_calls (rr w) ++
                       [CallSetTime "step" (Sequence n);
                        CallLog p (Scalars value)
                          (<["step" := Sequence n]> (sink_time (rr w)))])
               (<["step" := Sequence n]> (sink_time (rr w)))))) ∧
  (∃ p, Logger._get_path path w = (Normal p, w) ∧
     Logger.log_scalar path value None w
     = (Normal (),
        mkWorld (self w)
          (mkSink (sink_calls (rr w) ++
                     [CallLog p (Scalars value) (sink_time (rr w))])
             (sink_time (rr w))))) ∧
  (∀ path1 value1 message,
     ∃ calls p time w',
       (Logger.log_scalar path1 value1 (Some 5);;
        Logger.info message;;
        Logger.log_scalar path value None) w = (Normal (), w') ∧
       sink_calls (rr w') = calls ++ [CallLog p (Scalars value) time] ∧
       time !! "step" = Some (Sequence 5) ∧
       sink_time (rr w') !! "step" = Some (Sequence 5)).
Proof.
  split; [|split].
  - intros n. exists (resolved path w).
    split; [apply resolved_get_path | apply log_scalar_step].
  - exists (resolved path w).
    split; [apply resolved_get_path | apply log_scalar_no_step].
  - intros path1 value1 message.
    unfold mbind at 1, St_bind at 1. rewrite log_scalar_step.
    unfold mbind at 1, St_bind at 1.
    change (Logger.info message) with (text_method Info message).
    rewrite text_method_eq.
    rewrite log_scalar_no_step.
    eexists _, _, _, _. split; [reflexivity|].
    split; [reflexivity|]. simpl. by rewrite lookup_insert_eq.
Qed.

(** ** The constructor *)

Lemma config_or_empty (c : gmap string PyVal) :
  (if (size c =? 0)%nat then ∅ else c) = c.
Proof.
  destruct (size c =? 0)%nat eqn:E; [|done].
  apply Nat.eqb_eq in E. symmetry. by apply map_size_empty_iff.
Qed.

(** The object built and the calls made, for any arguments. *)
Lemma init_eq (app : string) (prefix : option string)
    (cfg : option (gmap string PyVal)) (s : Sink) :
  Logger.__init__ app prefix cfg s =
  (Normal (mkLogger app
             (match prefix with
              | Some p => if PyStr.truthy p then p else EmptyString
              | None => EmptyString
              end)
             (default ∅ cfg)),
   mkSink (sink_calls s ++
             CallInit app (default (PyBool true) (default ∅ cfg !! "spawn_viewer")) ::
             match default ∅ cfg !! "save_path" with
             | Some v => if truthy v then [CallSave v] else []
             | None => []
             end)
     (sink_time s)).
Proof.
  unfold Logger.__init__.
  assert (match cfg with
          | Some c => if (size c =? 0)%nat then ∅ else c
          | None => ∅
          end = default ∅ cfg) as ->.
  { destruct cfg as [c|]; [apply config_or_empty | done]. }
  unfold mbind, St_bind, sink_init, sink_save, mret, St_ret.
  destruct (default ∅ cfg !! "save_path") as [v|]; simpl.
  - destruct (truthy v); simpl; [by rewrite <- app_assoc | done].
  - done.
Qed.

(** C8, as stated, fails: a configuration that has [save_path] set to
    the empty string makes the constructor call [rr.init] and nothing
    else. *)
Lemma init_save_path_counterexample :
  is_Some (({["save_path" := PyString EmptyString]} : gmap string PyVal)
             !! "save_path") ∧
  (Logger.__init__ "app" None
     (Some {["save_path" := PyString EmptyString]}) fresh_sink).2
  = mkSink [CallInit "app" (PyBool true)] ∅.
Proof.
  split.
  - rewrite lookup_singleton_eq. by eexists.
  - rewrite init_eq. simpl. by rewrite lookup_singleton_eq.
Qed.

(** C8, amended: the constructor calls [rr.init] exactly once, with
    [application_id] and the [spawn_viewer] value of the configuration
    ([True] when the option is absent), and then calls [rr.save] once with
    the [save_path] value if and only if that option is present with a
    true value (a non-empty string); it makes no other call and leaves
    the timelines alone. *)
Theorem init_sink_calls (app : string) (prefix : option string)
    (cfg : option (gmap string PyVal)) (s : Sink) :
  ∃ obj s',
    Logger.__init__ app prefix cfg s = (Normal obj, s') ∧
    sink_time s' = sink_time s ∧
    sink_calls s' =
      sink_calls s ++
      CallInit app (default (PyBool true) (default ∅ cfg !! "spawn_viewer")) ::
      match default ∅ cfg !! "save_path" with
      | Some v => if truthy v then [CallSave v] else []
      | None => []
      end.
Proof. eexists _, _. by rewrite init_eq. Qed.

(** C10: the constructor checks neither argument.  For every
    [application_id], the empty string included, it completes normally,
    stores the string and hands it unchanged to [rr.init] as its first
    call; and [entity_prefix=None] and [entity_prefix=""] build the same
    session, whose prefix is empty. *)
Theorem init_no_validation (app : string) (prefix : option string)
    (cfg : option (gmap string PyVal)) (s : Sink) :
  (∃ obj s' spawn rest,
     Logger.__init__ app prefix cfg s = (Normal obj, s') ∧
     application_id obj = app ∧
     sink_calls s' = sink_calls s ++ CallInit app spawn :: rest) ∧
  (∃ obj s' spawn rest,
     Logger.__init__ EmptyString prefix cfg s = (Normal obj, s') ∧
     application_id obj = EmptyString ∧
     sink_calls s' = sink_calls s ++ CallInit EmptyString spawn :: rest) ∧
  (∃ obj s',
     Logger.__init__ app None cfg s = (Normal obj, s') ∧
     Logger.__init__ app (Some EmptyString) cfg s = (Normal obj, s') ∧
     entity_prefix obj = EmptyString).
Proof.
  rewrite !init_eq. simpl.
  split; [by eexists _, _, _, _|]. split; [by eexists _, _, _, _|].
  by eexists _, _.
Qed.

(** ** Well-formed paths *)

Lemma split_cons (c : ascii) (s : string) :
  ∃ piece pieces, PyStr.split c s = piece :: pieces.
Proof.
  destruct s as [|d s]; simpl; [by eexists _, _|].
  destruct (Ascii.eqb d c); [by eexists _, _|].
  destruct (PyStr.split c s); by eexists _, _.
Qed.

Lemma split_step (c d : ascii) (s : string) :
  PyStr.split c (String d s) =
  if Ascii.eqb d c then EmptyString :: PyStr.split c s
  else match PyStr.split c s with
       | piece :: pieces => String d piece :: pieces
       | [] => [String d EmptyString]
       end.
Proof. reflexivity. Qed.

(** Splitting distributes over a separator placed between two texts. *)
Lemma split_app (c : ascii) (a b : string) :
  PyStr.split c (a +:+ String c b) = PyStr.split c a ++ PyStr.split c b.
Proof.
  induction a as [|d a IH]; simpl.
  - by rewrite Ascii.eqb_refl.
  - destruct (Ascii.eqb d c); [by rewrite IH|].
    rewrite IH. by destruct (split_cons c a) as (piece & pieces & ->).
Qed.

Lemma well_formed_join (a b : string) :
  well_formed (a +:+ "/" +:+ b) = well_formed a && well_formed b.
Proof.
  unfold well_formed, segments. change ("/" +:+ b) with (String sep b).
  by rewrite split_app, forallb_app.
Qed.

Lemma well_formed_nonempty (s : string) :
  well_formed s = true → PyStr.truthy s = true.
Proof. by destruct s. Qed.

Lemma mem_sep (c : ascii) : PyStr.mem c "/" = Ascii.eqb c sep.
Proof. unfold sep. simpl. by destruct (Ascii.eqb _ _). Qed.

Lemma well_formed_head (s : string) :
  well_formed s = true →
  from_option (λ c, PyStr.mem c "/" = false) True (PyStr.head s).
Proof.
  destruct s as [|c s]; [done|]. unfold well_formed, segments.
  rewrite split_step. intros Hwf. change (PyStr.mem c "/" = false).
  rewrite mem_sep. by destruct (Ascii.eqb c sep).
Qed.

(** If every segment after the first is non-empty, the text does not end
    with a separator. *)
Lemma tail_segments_last (s : string) :
  s ≠ EmptyString →
  forallb PyStr.truthy (tail (PyStr.split sep s)) = true →
  from_option (λ c, PyStr.mem c "/" = false) True (PyStr.last s).
Proof.
  induction s as [|c s IH]; [done|]. intros _ Htl.
  assert (forallb PyStr.truthy (tail (PyStr.split sep s)) = true ∧
          (s = EmptyString → Ascii.eqb c sep = false)) as [Htl' Hc].
  { rewrite split_step in Htl. destruct (Ascii.eqb c sep) eqn:Ec.
    - simpl in Htl. destruct s as [|d s]; [done|].
      split; [|done]. destruct (split_cons sep (String d s)) as (p & ps & E).
      rewrite E in *. simpl in Htl. by apply andb_true_iff in Htl as [_ ?].
    - destruct (split_cons sep s) as (p & ps & E). rewrite E in *. done. }
  destruct s as [|d s].
  - change (PyStr.mem c "/" = false). rewrite mem_sep. by apply Hc.
  - change (PyStr.last (String c (String d s))) with (PyStr.last (String d s)).
    by apply IH.
Qed.

Lemma well_formed_last (s : string) :
  well_formed s = true →
  from_option (λ c, PyStr.mem c "/" = false) True (PyStr.last s).
Proof.
  intros Hwf. apply tail_segments_last.
  - by destruct s.
  - unfold well_formed, segments in Hwf.
    destruct (split_cons sep s) as (p & ps & E). rewrite E in *. simpl in *.
    by apply andb_true_iff in Hwf as [_ ?].
Qed.

Lemma well_formed_strip (s : string) :
  well_formed s = true → PyStr.strip "/" s = s.
Proof.
  intros Hwf.
  apply PyStrFacts.strip_id; [by apply well_formed_head | by apply well_formed_last].
Qed.

Lemma well_formed_clean_ends (s : string) :
  s = EmptyString ∨ well_formed s = true → PyStr.clean_ends "/" s = true.
Proof.
  intros [-> | Hwf]; [done|]. unfold PyStr.clean_ends.
  pose proof (well_formed_head s Hwf) as Hh.
  pose proof (well_formed_last s Hwf) as Hl.
  destruct (PyStr.head s), (PyStr.last s); simpl in *; try done.
  by rewrite Hh, Hl.
Qed.

(** Composition keeps paths well formed. *)
Lemma resolved_well_formed (relative : string) (w : World) :
  entity_prefix (self w) = EmptyString ∨ well_formed (entity_prefix (self w)) = true →
  well_formed relative = true →
  well_formed (resolved relative w) = true.
Proof.
  unfold resolved. intros [-> | Hp] Hr; [done|].
  rewrite (well_formed_nonempty _ Hp).
  assert (well_formed (entity_prefix (self w) +:+ "/" +:+ relative) = true) as Hj.
  { by rewrite well_formed_join, Hp, Hr. }
  by rewrite well_formed_strip.
Qed.

(** ** Reachable sessions *)

(** The invariant: the prefix and every saved prefix are empty or well
    formed. *)
Lemma reachable_wf_inv (st : Session) :
  reachable_wf st →
  (entity_prefix (self (world st)) = EmptyString ∨
   well_formed (entity_prefix (self (world st))) = true) ∧
  Forall (λ p, p = EmptyString ∨ well_formed p = true) (frames st).
Proof.
  induction 1 as [app prefix cfg s obj s' Hinit Hprefix
                 | path_prefix st Hst [IHp IHf] Hwf
                 | st Hst [IHp IHf]].
  - rewrite init_eq in Hinit. injection Hinit as <- <-. simpl. split; [|done].
    destruct prefix as [p|]; [|by left]. simpl in Hprefix.
    destruct Hprefix as [-> | Hp]; [by left|].
    rewrite (well_formed_nonempty _ Hp). by right.
  - unfold scope_step. rewrite context_enter_eq.
    cbn [world frames self entity_prefix]. split.
    + right. destruct IHp as [-> | Hp]; [done|].
      rewrite (well_formed_nonempty _ Hp). by rewrite well_formed_join, Hp, Hwf.
    + by constructor.
  - destruct st as [w [|old rest]]; [done|]. simpl in *.
    by apply Forall_cons in IHf as [Hold Hrest].
Qed.

(** C9, as stated, fails: the constructor stores the prefix it is given,
    so [Logger("app", "/a/")] starts with a prefix that has a separator at
    both ends, and composing it with ["b//c"] gives a path with empty
    segments. *)
Lemma prefix_invariant_counterexample :
  reachable (mkSession (mkWorld (mkLogger "app" "/a/" ∅)
                          (mkSink [CallInit "app" (PyBool true)] ∅)) []) ∧
  PyStr.clean_ends "/" "/a/" = false ∧
  (Logger._get_path "b//c" (mkWorld (mkLogger "app" "/a/" ∅)
                              (mkSink [CallInit "app" (PyBool true)] ∅))).1
    = Normal "a//b//c" ∧
  well_formed "a//b//c" = false.
Proof.
  split; [|done].
  by apply (reach_init "app" (Some "/a/") None fresh_sink).
Qed.

(** C9, amended: when the constructor's [entity_prefix] is absent, empty
    or well formed and every scope is entered with a well-formed
    [path_prefix], then after any sequence of entries and exits the
    current prefix is empty or well formed, so it has no separator at
    either end, and composing it with a well-formed relative path gives a
    well-formed path. *)
Theorem prefix_well_formed (st : Session) :
  reachable_wf st →
  (entity_prefix (self (world st)) = EmptyString ∨
   well_formed (entity_prefix (self (world st))) = true) ∧
  PyStr.clean_ends "/" (entity_prefix (self (world st))) = true ∧
  (∀ relative,
     well_formed relative = true →
     ∃ p, Logger._get_path relative (world st) = (Normal p, world st) ∧
          well_formed p = true).
Proof.
  intros [Hp _]%reachable_wf_inv. split; [done|].
  split; [by apply well_formed_clean_ends|].
  intros relative Hr. exists (resolved relative (world st)).
  split; [apply resolved_get_path | by apply resolved_well_formed].
Qed.

Lemma prefix_well_formed_witness :
  let st := scope_step Exit
              (scope_step (Enter "epoch_5")
                 (scope_step (Enter "training")
                    (mkSession (mkWorld (mkLogger "app" "exp" ∅)
                                  (mkSink [CallInit "app" (PyBool true)] ∅)) []))) in
  (entity_prefix (self (world st)) = EmptyString ∨
   well_formed (entity_prefix (self (world st))) = true) ∧
  PyStr.clean_ends "/" (entity_prefix (self (world st))) = true ∧
  (∀ relative,
     well_formed relative = true →
     ∃ p, Logger._get_path relative (world st) = (Normal p, world st) ∧
          well_formed p = true).
Proof.
  apply prefix_well_formed.
  apply reach_wf_exit. apply reach_wf_enter; [|reflexivity].
  apply reach_wf_enter; [|reflexivity].
  apply (reach_wf_init "app" (Some "exp") None fresh_sink);
    [reflexivity | right; reflexivity].
Defined.

(** ** Dictionaries as documents *)

(** Induction on values that reaches inside lists, tuples and
    dictionaries. *)
Lemma PyVal_nested_ind (P : PyVal → Prop) :
  P PyNone → (∀ b, P (PyBool b)) → (∀ n, P (PyInt n)) →
  (∀ x, P (PyFloat x)) → (∀ s, P (PyString s)) →
  (∀ items, Forall P items → P (PyList items)) →
  (∀ items, Forall P items → P (PyTuple items)) →
  (∀ items, Forall (λ kv, P kv.1 ∧ P kv.2) items → P (PyDict items)) →
  (∀ o, P (PyObj o)) →
  ∀ v, P v.
Proof.
  intros HNone HBool HInt HFloat HStr HList HTuple HDict HObj.
  fix IH 1. intros [ | b | n | x | s | items | items | items | o].
  - exact HNone.
  - apply HBool.
  - apply HInt.
  - apply HFloat.
  - apply HStr.
  - apply HList. induction items as [|v items IHitems]; constructor;
      [apply IH | exact IHitems].
  - apply HTuple. induction items as [|v items IHitems]; constructor;
      [apply IH | exact IHitems].
  - apply HDict. induction items as [|[k v] items IHitems]; constructor;
      [split; apply IH | exact IHitems].
  - apply HObj.
Qed.

Lemma mapM_total {A B} (f : A → result B) (l : list A) :
  Forall (λ x, ∃ y, f x = Ok y) l → ∃ ys, mapM f l = Ok ys.
Proof.
  induction 1 as [|x l [y Hy] _ [ys Hys]]; simpl; [by eexists|].
  rewrite Hy. simpl. rewrite Hys. by eexists.
Qed.

Section Documents.
Context `{FloatRepr} `{PyLimits}.

(** Both textual forms of a dictionary, when there is one, start with a
    brace. *)
Lemma dumps_dict_nonempty (items : list (PyVal * PyVal)) (indent : nat)
    (default : PyVal → result string) (s : string) :
  Json.dumps (PyDict items) indent default = Ok s → s ≠ EmptyString.
Proof.
  unfold Json.dumps. cbn [Json.iterencode].
  destruct (json_depth_limit <=? 0)%nat; [done|].
  destruct items as [|kv items].
  - by intros [= <-].
  - destruct (mapM _ _); simpl; [by intros [= <-] | done].
Qed.

Lemma str_dict_nonempty (items : list (PyVal * PyVal)) (s : string) :
  PyRepr.str (PyDict items) = Ok s → s ≠ EmptyString.
Proof.
  unfold PyRepr.str, PyRepr.repr. cbn [PyRepr.repr_at].
  destruct (repr_depth_limit <=? 0)%nat; [done|].
  destruct (mapM _ _); simpl; [by intros [= <-] | done].
Qed.

(** What [log_dict] does, by the outcome of [json.dumps]. *)
Lemma log_dict_eq (path : string) (dictionary : list (PyVal * PyVal))
    (w : World) :
  Logger.log_dict path dictionary w =
  match Json.dumps (PyDict dictionary) 2 PyRepr.str with
  | Ok content =>
      (Normal (), logged (resolved path w) (TextDocument content "text/markdown") w)
  | Err e =>
      if is_Exception e then
        match PyRepr.str (PyDict dictionary) with
        | Ok content =>
            (Normal (),
             logged (resolved path w) (TextDocument content "text/markdown") w)
        | Err e' => (Raise e', w)
        end
      else (Raise e, w)
  end.
Proof.
  unfold Logger.log_dict, mbind at 1, St_bind at 1, try_except, call.
  destruct (Json.dumps _ _ _) as [content|e].
  - apply log_at_resolved.
  - destruct (is_Exception e); [|done].
    destruct (PyRepr.str _) as [content|e']; [apply log_at_resolved | done].
Qed.

(** C7, amended: [log_dict] does not raise from serialization as long as
    one of its two serializations yields a text.  Whenever
    [json.dumps(dictionary, indent=2, default=str)] returns, or raises an
    [Exception] and [str(dictionary)] returns, [log_dict] completes
    normally and forwards that text, which is not empty, as one document
    of media type ["text/markdown"]; and it completes normally in these
    cases only.  In the JSON text an object that JSON does not know
    stands as the JSON string of its [str]. *)
Theorem log_dict_forwards (path : string) (dictionary : list (PyVal * PyVal))
    (w : World) :
  (∀ content,
     Json.dumps (PyDict dictionary) 2 PyRepr.str = Ok content ∨
     (∃ e, Json.dumps (PyDict dictionary) 2 PyRepr.str = Err e ∧
           is_Exception e = true ∧
           PyRepr.str (PyDict dictionary) = Ok content) →
     content ≠ EmptyString ∧
     Logger.log_dict path dictionary w
     = (Normal (),
        logged (resolved path w) (TextDocument content "text/markdown") w)) ∧
  ((Logger.log_dict path dictionary w).1 = Normal () →
   ∃ content,
     Json.dumps (PyDict dictionary) 2 PyRepr.str = Ok content ∨
     (∃ e, Json.dumps (PyDict dictionary) 2 PyRepr.str = Err e ∧
           is_Exception e = true ∧
           PyRepr.str (PyDict dictionary) = Ok content)) ∧
  (∀ o level,
     Json.iterencode 2 PyRepr.str level (PyObj o)
     = s ← obj_str o; Ok (Json.encode_basestring_ascii s)).
Proof.
  split; [|split; [|done]].
  - intros content [Hc | (e & He & Hexc & Hs)]; rewrite log_dict_eq.
    + rewrite Hc. split; [by eapply dumps_dict_nonempty | done].
    + rewrite He, Hexc, Hs. split; [by eapply str_dict_nonempty | done].
  - rewrite log_dict_eq.
    destruct (Json.dumps _ _ _) as [content|e] eqn:Hc.
    + intros _. exists content. by left.
    + destruct (is_Exception e) eqn:Hexc; [|done].
      destruct (PyRepr.str _) as [content|e'] eqn:Hs; [|done].
      intros _. exists content. right. by exists e.
Qed.

End Documents.

(** The dictionary of the usage example with one more entry, an object
    that JSON does not know. *)
Lemma log_dict_forwards_witness :
  ∃ content,
    content ≠ EmptyString ∧
    Logger.log_dict (H := no_float_repr) "experiment/config"
      [(PyString "model_type", PyString "CNN"); (PyString "layers", PyInt 5);
       (PyString "device",
        PyObj (mkPyObject (Ok "cuda:0") (Ok "device(type='cuda', index=0)") true))]
      (mkWorld (mkLogger "app" "run" ∅) fresh_sink)
    = (Normal (),
       logged "run/experiment/config" (TextDocument content "text/markdown")
         (mkWorld (mkLogger "app" "run" ∅) fresh_sink)).
Proof.
  eexists.
  apply (log_dict_forwards (H := no_float_repr) "experiment/config"
      [(PyString "model_type", PyString "CNN"); (PyString "layers", PyInt 5);
       (PyString "device",
        PyObj (mkPyObject (Ok "cuda:0") (Ok "device(type='cuda', index=0)") true))]
      (mkWorld (mkLogger "app" "run" ∅) fresh_sink)).
  left. reflexivity.
Defined.

(** A key that JSON refuses, or a [__str__] that raises, sends [log_dict]
    to the fallback. *)
Example log_dict_fallback :
  Logger.log_dict (H := no_float_repr) "cfg"
    [(PyTuple [PyInt 1; PyInt 2], PyString "x")]
    (mkWorld (mkLogger "app" EmptyString ∅) fresh_sink)
  = (Normal (),
     logged "cfg" (TextDocument "{(1, 2): 'x'}" "text/markdown")
       (mkWorld (mkLogger "app" EmptyString ∅) fresh_sink)).
Proof. reflexivity. Qed.

Example log_dict_fallback_str :
  Logger.log_dict (H := no_float_repr) "cfg"
    [(PyString "row", PyObj (mkPyObject (Err ValueError) (Ok "<Row 7>") true))]
    (mkWorld (mkLogger "app" EmptyString ∅) fresh_sink)
  = (Normal (),
     logged "cfg" (TextDocument "{'row': <Row 7>}" "text/markdown")
       (mkWorld (mkLogger "app" EmptyString ∅) fresh_sink)).
Proof. reflexivity. Qed.

(** C7, as stated, fails: when an object's [__str__] and [__repr__] both
    raise, [json.dumps] raises, the handler's [str(dictionary)] raises
    too, and [log_dict] raises without logging anything. *)
Lemma log_dict_counterexample :
  Logger.log_dict (H := no_float_repr) "cfg"
    [(PyString "row",
      PyObj (mkPyObject (Err (OtherException "DetachedInstanceError"))
               (Err (OtherException "DetachedInstanceError")) true))]
    (mkWorld (mkLogger "app" EmptyString ∅) fresh_sink)
  = (Raise (OtherException "DetachedInstanceError"),
     mkWorld (mkLogger "app" EmptyString ∅) fresh_sink).
Proof. reflexivity. Qed.

(** Plain data fails the same way at the interpreter's limits.  An
    integer with more digits than the digit limit, the smallest being
    [10 ** int_max_str_digits], makes both serializations raise
    [ValueError]; so do lists a hundred deep where a hundred levels are
    all the recursion limit leaves, with [RecursionError]. *)
Lemma int_beyond_limit `{PyLimits} :
  (0 < int_max_str_digits)%nat →
  int_fits (10 ^ Z.of_nat int_max_str_digits) = false.
Proof.
  intros Hpos. unfold int_fits.
  apply Nat.ltb_lt in Hpos as ->.
  rewrite Z.abs_eq by (apply Z.pow_nonneg; lia).
  by rewrite Z.leb_refl.
Qed.

Lemma log_dict_int_beyond_limit `{FloatRepr} `{PyLimits} (path key : string)
    (n : Z) (w : World) :
  int_fits n = false →
  (0 < json_depth_limit)%nat → (1 < repr_depth_limit)%nat →
  Logger.log_dict path [(PyString key, PyInt n)] w = (Raise ValueError, w).
Proof.
  intros Hn Hjson Hrepr. rewrite log_dict_eq.
  unfold Json.dumps, PyRepr.str, PyRepr.repr.
  cbn [Json.iterencode PyRepr.repr_at mapM].
  assert ((json_depth_limit <=? 0)%nat = false) as -> by (apply Nat.leb_gt; lia).
  assert ((repr_depth_limit <=? 0)%nat = false) as -> by (apply Nat.leb_gt; lia).
  assert ((repr_depth_limit <=? 1)%nat = false) as -> by (apply Nat.leb_gt; lia).
  unfold int_to_str. rewrite Hn. reflexivity.
Qed.

Example log_dict_deep_nesting :
  Logger.log_dict (H := no_float_repr) "cfg" [(PyString "tree", deep 100)]
    (mkWorld (mkLogger "app" EmptyString ∅) fresh_sink)
  = (Raise RecursionError, mkWorld (mkLogger "app" EmptyString ∅) fresh_sink).
Proof. vm_compute. reflexivity. Qed.

(** * Further properties of the logger *)

(** ** Composition of paths, once more *)

Lemma head_app (a b : string) :
  a ≠ EmptyString → PyStr.head (a +:+ b) = PyStr.head a.
Proof. by destruct a. Qed.


Lemma all_in_lstrip (chars s : string) :
  PyStr.all_in chars s = true → PyStr.lstrip chars s = EmptyString.
Proof.
  induction s as [|c s IH]; [done|]. simpl.
  destruct (PyStr.mem c chars); [exact IH | done].
Qed.

Lemma lstrip_not_all (chars s t : string) :
  PyStr.all_in chars s = false →
  PyStr.lstrip chars (s +:+ t) = PyStr.lstrip chars s +:+ t.
Proof.
  induction s as [|c s IH]; [done|]. simpl.
  destruct (PyStr.mem c chars); [exact IH | done].
Qed.

Lemma rstrip_snoc (chars s : string) (c : ascii) :
  PyStr.mem c chars = true →
  PyStr.rstrip chars (s +:+ String c EmptyString) = PyStr.rstrip chars s.
Proof.
  intros Hc. induction s as [|d s IH]; simpl; [by rewrite Hc|].
  by rewrite IH.
Qed.

Lemma lstrip_all_snoc (chars s : string) (c : ascii) :
  PyStr.mem c chars = true → PyStr.all_in chars s = true →
  PyStr.lstrip chars (s +:+ String c EmptyString) = EmptyString.
Proof.
  intros Hc Hs. apply all_in_lstrip.
  induction s as [|d s IH]; simpl in *; [by rewrite Hc|].
  apply andb_true_iff in Hs as [-> Hs]. by apply IH.
Qed.

(** One more character of [chars] at the end changes nothing. *)
Lemma strip_snoc (chars s : string) (c : ascii) :
  PyStr.mem c chars = true →
  PyStr.strip chars (s +:+ String c EmptyString) = PyStr.strip chars s.
Proof.
  intros Hc. unfold PyStr.strip.
  destruct (PyStr.all_in chars s) eqn:Hs.
  - by rewrite lstrip_all_snoc, all_in_lstrip.
  - rewrite lstrip_not_all by done. by apply rstrip_snoc.
Qed.

(** X1: with a prefix set, a slash at the end of the relative path is
    dropped, so [path + "/"] and [path] name the same entity; with no
    prefix the path is passed on as written, slash included. *)
Theorem get_path_trailing_slash (relative : string) (w : World) :
  (entity_prefix (self w) ≠ EmptyString →
     Logger._get_path (relative +:+ "/") w = Logger._get_path relative w) ∧
  (entity_prefix (self w) = EmptyString →
     Logger._get_path (relative +:+ "/") w = (Normal (relative +:+ "/"), w)).
Proof.
  rewrite !get_path_eq. split.
  - intros NE%PyStrFacts.truthy_true. rewrite NE.
    change (entity_prefix (self w) +:+ "/" +:+ relative +:+ "/")
      with (entity_prefix (self w) +:+ String "/" (relative +:+ "/")).
    rewrite <- (PyStrFacts.append_cons "/" relative "/").
    rewrite <- PyStrFacts.append_assoc.
    by rewrite strip_snoc.
  - by intros ->.
Qed.

Lemma get_path_trailing_slash_witness :
  Logger._get_path ("loss" +:+ "/") (mkWorld (mkLogger "app" "run" ∅) fresh_sink)
    = Logger._get_path "loss" (mkWorld (mkLogger "app" "run" ∅) fresh_sink) ∧
  Logger._get_path ("loss" +:+ "/")
      (mkWorld (mkLogger "app" EmptyString ∅) fresh_sink)
    = (Normal ("loss" +:+ "/"),
       mkWorld (mkLogger "app" EmptyString ∅) fresh_sink).
Proof.
  split.
  - apply (get_path_trailing_slash "loss"
             (mkWorld (mkLogger "app" "run" ∅) fresh_sink)).
    simpl. discriminate.
  - apply (get_path_trailing_slash "loss"
             (mkWorld (mkLogger "app" EmptyString ∅) fresh_sink)).
    reflexivity.
Defined.

(** ** Logging inside scopes *)




(** The prefix inside scopes nested to any depth. *)
Lemma nested_probe (path_prefixes : list string) (w : World) :
  entity_prefix (self w) ≠ EmptyString →
  nested path_prefixes get_entity_prefix w
  = (Normal (fold_left (λ current p, current +:+ "/" +:+ p) path_prefixes
               (entity_prefix (self w))), w).
Proof.
  revert w. induction path_prefixes as [|p ps IH]; intros w NE.
  - reflexivity.
  - unfold nested in *. cbn [foldr fold_left]. rewrite context_eq. cbv zeta.
    rewrite context_enter_eq. cbn [snd].
    apply PyStrFacts.truthy_true in NE as Ht. rewrite Ht.
    rewrite IH.
    + cbn [fst snd self entity_prefix application_id config rr].
      by rewrite world_eta.
    + cbn [self entity_prefix]. by destruct (entity_prefix (self w)).
Qed.

(** X3: scopes nest to any depth.  From a non-empty prefix, inside
    [context(p1)], ..., [context(pn)] the prefix is
    [original/p1/.../pn], and once all of them are left the world is what
    it was before the first was entered. *)
Theorem nested_scopes_compose (path_prefixes : list string) (w : World) :
  entity_prefix (self w) ≠ EmptyString →
  (inside ← nested path_prefixes get_entity_prefix;
   after ← get_entity_prefix; mret (inside, after)) w
  = (Normal (fold_left (λ current p, current +:+ "/" +:+ p) path_prefixes
               (entity_prefix (self w)),
             entity_prefix (self w)), w).
Proof.
  intros NE. unfold mbind at 1, St_bind at 1. by rewrite nested_probe.
Qed.

Lemma nested_scopes_compose_witness :
  (inside ← nested ["training"; "epoch_5"; "batch_3"] get_entity_prefix;
   after ← get_entity_prefix; mret (inside, after))
    (mkWorld (mkLogger "app" "exp" ∅) fresh_sink)
  = (Normal ("exp/training/epoch_5/batch_3", "exp"),
     mkWorld (mkLogger "app" "exp" ∅) fresh_sink).
Proof.
  apply (nested_scopes_compose ["training"; "epoch_5"; "batch_3"]
           (mkWorld (mkLogger "app" "exp" ∅) fresh_sink)).
  simpl. discriminate.
Defined.

(** X4: [log_scalar(path, value, step=n)] is
    [set_time_sequence("step", n)] followed by [log_scalar(path, value)]:
    the same calls reach the sink and the same world is left. *)
Theorem log_scalar_step_is_set_time (path : string) (value : float) (n : Z)
    (w : World) :
  Logger.log_scalar path value (Some n) w
  = (Logger.set_time_sequence "step" n;;
     Logger.log_scalar path value None) w.
Proof.
  rewrite log_scalar_step. unfold mbind, St_bind.
  unfold Logger.set_time_sequence, rr_set_time, on_rr, sink_set_time.
  cbv beta iota zeta. rewrite log_scalar_no_step. unfold logged, resolved.
  simpl. by rewrite <- app_assoc.
Qed.

(** ** Programs over the logger *)

Lemma startswith_app (p rest : string) : startswith (p +:+ rest) p = true.
Proof.
  induction p as [|c p IH]; [done|]. simpl. by rewrite Ascii.eqb_refl.
Qed.

Lemma startswith_inv (s p : string) :
  startswith s p = true → ∃ rest, s = p +:+ rest.
Proof.
  revert s. induction p as [|c p IH]; intros s Hs; [by exists s|].
  destruct s as [|d s]; [done|]. simpl in Hs.
  apply andb_true_iff in Hs as [Hc Hs]. apply Ascii.eqb_eq in Hc as ->.
  destruct (IH _ Hs) as [rest ->]. by exists rest.
Qed.

(** Stripping from the right stops at a prefix that ends cleanly. *)
Lemma rstrip_keeps_prefix (chars p rest : string) :
  p ≠ EmptyString →
  from_option (λ c, PyStr.mem c chars = false) True (PyStr.last p) →
  ∃ rest', PyStr.rstrip chars (p +:+ rest) = p +:+ rest'.
Proof.
  induction p as [|c p IH]; [done|]. intros _ Hlast.
  destruct p as [|d p].
  - simpl in Hlast. simpl. rewrite Hlast.
    destruct (PyStr.rstrip chars rest) as [|e r]; [by exists EmptyString|].
    by exists (String e r).
  - destruct IH as [rest' E]; [done | exact Hlast |].
    exists rest'. rewrite PyStrFacts.append_cons.
    change (PyStr.rstrip chars (String c (String d p +:+ rest)))
      with (match PyStr.rstrip chars (String d p +:+ rest) with
            | EmptyString =>
                if PyStr.mem c chars then EmptyString else String c EmptyString
            | r => String c r
            end).
    by rewrite E.
Qed.

Lemma strip_keeps_prefix (chars p rest : string) :
  p ≠ EmptyString →
  from_option (λ c, PyStr.mem c chars = false) True (PyStr.head p) →
  from_option (λ c, PyStr.mem c chars = false) True (PyStr.last p) →
  startswith (PyStr.strip chars (p +:+ rest)) p = true.
Proof.
  intros NE Hh Hl. unfold PyStr.strip.
  rewrite PyStrFacts.lstrip_id by (by rewrite head_app).
  destruct (rstrip_keeps_prefix chars p rest NE Hl) as [rest' ->].
  apply startswith_app.
Qed.

(** A path resolved under a prefix that extends [p] starts with [p]. *)
Lemma resolved_under (p relative : string) (w : World) :
  p ≠ EmptyString →
  from_option (λ c, PyStr.mem c "/" = false) True (PyStr.head p) →
  from_option (λ c, PyStr.mem c "/" = false) True (PyStr.last p) →
  startswith (entity_prefix (self w)) p = true →
  startswith (resolved relative w) p = true.
Proof.
  intros NE Hh Hl [rest E]%startswith_inv. unfold resolved. rewrite E.
  assert (PyStr.truthy (p +:+ rest) = true) as -> by (by destruct p).
  rewrite PyStrFacts.append_assoc. by apply strip_keeps_prefix.
Qed.

Section Programs.
Context `{FloatRepr} `{PyLimits}.

(** What a program leaves behind, in one induction: the logger object is
    the one it started with; the sink's history is the old one with new
    calls after it; a timeline no statement sets keeps its coordinate,
    and the new records carry it; and under a prefix that extends a
    cleanly ended [p], the new records are logged under [p]. *)
Lemma exec_effects (s : Stmt) (timeline p : string) (w : World) :
  self (exec s w).2 = self w ∧
  ∃ new,
    sink_calls (rr (exec s w).2) = sink_calls (rr w) ++ new ∧
    (sets_time timeline s = false →
       sink_time (rr (exec s w).2) !! timeline = sink_time (rr w) !! timeline ∧
       Forall (stamped timeline (sink_time (rr w) !! timeline)) new) ∧
    (p ≠ EmptyString →
     from_option (λ c, PyStr.mem c "/" = false) True (PyStr.head p) →
     from_option (λ c, PyStr.mem c "/" = false) True (PyStr.last p) →
     startswith (entity_prefix (self w)) p = true →
     Forall (λ c, logged_under p c = true) new).
Proof.
  revert w.
  assert (∀ relative record (w : World),
    self (logged (resolved relative w) record w) = self w ∧
    ∃ new,
      sink_calls (rr (logged (resolved relative w) record w))
        = sink_calls (rr w) ++ new ∧
      (sink_time (rr (logged (resolved relative w) record w)) !! timeline
         = sink_time (rr w) !! timeline ∧
       Forall (stamped timeline (sink_time (rr w) !! timeline)) new) ∧
      (p ≠ EmptyString →
       from_option (λ c, PyStr.mem c "/" = false) True (PyStr.head p) →
       from_option (λ c, PyStr.mem c "/" = false) True (PyStr.last p) →
       startswith (entity_prefix (self w)) p = true →
       Forall (λ c, logged_under p c = true) new)) as Hlog.
  { intros relative record w. split; [done|]. eexists. split; [reflexivity|].
    split; [split; [done | by repeat constructor]|].
    intros NE Hh Hl Hp. repeat constructor. simpl. by apply resolved_under. }
  assert (∀ w : World,
    self w = self w ∧
    ∃ new,
      sink_calls (rr w) = sink_calls (rr w) ++ new ∧
      (sink_time (rr w) !! timeline = sink_time (rr w) !! timeline ∧
       Forall (stamped timeline (sink_time (rr w) !! timeline)) new) ∧
      (p ≠ EmptyString →
       from_option (λ c, PyStr.mem c "/" = false) True (PyStr.head p) →
       from_option (λ c, PyStr.mem c "/" = false) True (PyStr.last p) →
       startswith (entity_prefix (self w)) p = true →
       Forall (λ c, logged_under p c = true) new)) as Hnone.
  { intros w. split; [done|]. exists []. by rewrite app_nil_r. }
  induction s as [ | m message | path value step | path image
                 | path dictionary | tl step | tl time | e | v
                 | first IH1 second IH2 | body IH | path_prefix body IH];
    intros w; cbn [exec sets_time].
  - destruct (Hnone w) as (? & new & ? & ? & ?). eauto 10.
  - rewrite text_method_eq.
    destruct (Hlog ("logs/" +:+ method_name m) (TextLog message (severity m)) w)
      as (? & new & ? & ? & ?). eauto 10.
  - destruct step as [n|].
    + rewrite log_scalar_step. split; [done|]. eexists. split; [reflexivity|].
      split.
      * intros Hne%String.eqb_neq. cbn [rr sink_time snd].
        rewrite lookup_insert_ne by done. split; [done|].
        repeat constructor. cbn [stamped]. by rewrite lookup_insert_ne.
      * intros NE Hh Hl Hp. repeat constructor. simpl. by apply resolved_under.
    + rewrite log_scalar_no_step.
      destruct (Hlog path (Scalars value) w) as (? & new & ? & ? & ?). eauto 10.
  - unfold Logger.log_image. rewrite log_at_resolved.
    destruct (Hlog path (Image image) w) as (? & new & ? & ? & ?). eauto 10.
  - rewrite log_dict_eq.
    destruct (Json.dumps _ _ _) as [content|e].
    + destruct (Hlog path (TextDocument content "text/markdown") w)
        as (? & new & ? & ? & ?). eauto 10.
    + destruct (is_Exception e).
      * destruct (PyRepr.str _) as [content|e'].
        -- destruct (Hlog path (TextDocument content "text/markdown") w)
             as (? & new & ? & ? & ?). eauto 10.
        -- destruct (Hnone w) as (? & new & ? & ? & ?). eauto 10.
      * destruct (Hnone w) as (? & new & ? & ? & ?). eauto 10.
  - split; [done|]. eexists. split; [reflexivity|]. split.
    + intros Hne%String.eqb_neq. cbn. rewrite lookup_insert_ne by done.
      split; [done | by repeat constructor].
    + intros. by repeat constructor.
  - split; [done|]. eexists. split; [reflexivity|]. split.
    + intros Hne%String.eqb_neq. cbn. rewrite lookup_insert_ne by done.
      split; [done | by repeat constructor].
    + intros. by repeat constructor.
  - destruct (Hnone w) as (? & new & ? & ? & ?). eauto 10.
  - destruct (Hnone w) as (? & new & ? & ? & ?). eauto 10.
  - unfold mbind, St_bind.
    destruct (IH1 w) as (Hs1 & new1 & Hc1 & Ht1 & Hp1).
    destruct (exec first w) as [[[]|v|e] w1]; cbn [snd] in *.
    + destruct (IH2 w1) as (Hs2 & new2 & Hc2 & Ht2 & Hp2).
      split; [congruence|]. exists (new1 ++ new2).
      split; [by rewrite Hc2, Hc1, app_assoc|]. split.
      * intros [Hf Hg]%orb_false_iff.
        destruct (Ht1 Hf) as [Et1 Hst1], (Ht2 Hg) as [Et2 Hst2].
        split; [congruence|]. apply Forall_app. split; [done|].
        by rewrite <- Et1.
      * intros NE Hh Hl Hp. apply Forall_app. split; [by apply Hp1|].
        apply Hp2; try done. by rewrite Hs1.
    + split; [done|]. exists new1. split; [done|]. split.
      * intros [Hf _]%orb_false_iff. by apply Ht1.
      * done.
    + split; [done|]. exists new1. split; [done|]. split.
      * intros [Hf _]%orb_false_iff. by apply Ht1.
      * done.
  - apply IH.
  - rewrite context_eq. cbv zeta. rewrite context_enter_eq. cbn [snd].
    match goal with
    | |- context [exec body ?w1] =>
        destruct (IH w1) as (Hs & new & Hc & Ht & Hp); set (w' := exec body w1) in *
    end.
    cbn [self rr entity_prefix application_id config] in *.
    split. { rewrite Hs. cbn. by destruct w as [[? ? ?] ?]. }
    exists new. split; [done|]. split; [done|].
    intros NE Hh Hl Hstart. apply Hp; try done.
    destruct (startswith_inv _ _ Hstart) as [rest E]. rewrite E.
    assert (PyStr.truthy (p +:+ rest) = true) as -> by (by destruct p).
    rewrite PyStrFacts.append_assoc. apply startswith_app.
Qed.

(** X5: a program of logger calls, [batch] and [context] blocks and
    client statements that raise or return, however it completes, leaves
    the logger object as it found it: same [application_id], same
    [entity_prefix], same [config]. *)
Theorem program_keeps_logger (s : Stmt) (w : World) :
  self (exec s w).2 = self w.
Proof. apply (exec_effects s EmptyString EmptyString w). Qed.

(** X6: only [log_scalar] with a step and the two [set_time_*] methods
    move a timeline.  When no statement of a program sets [timeline], its
    coordinate after the program is the one before, and every record the
    program logged carries that coordinate. *)
Theorem program_keeps_timeline (s : Stmt) (timeline : string) (w : World) :
  sets_time timeline s = false →
  sink_time (rr (exec s w).2) !! timeline = sink_time (rr w) !! timeline ∧
  ∃ new,
    sink_calls (rr (exec s w).2) = sink_calls (rr w) ++ new ∧
    Forall (stamped timeline (sink_time (rr w) !! timeline)) new.
Proof.
  intros Hs.
  destruct (exec_effects s timeline EmptyString w) as (_ & new & Hc & Ht & _).
  destruct (Ht Hs) as [Et Hst]. split; [done|]. by exists new.
Qed.

(** X7: [entity_prefix] is a prefix of all entity paths.  On a logger
    built with a non-empty [entity_prefix] that neither starts nor ends
    with a slash, every record a program logs, at whatever relative path
    and inside whatever scopes, has an entity path that starts with that
    prefix. *)
Theorem program_logs_under_prefix (s : Stmt) (app p : string)
    (cfg : option (gmap string PyVal)) (s0 : Sink) :
  p ≠ EmptyString →
  from_option (λ c, PyStr.mem c "/" = false) True (PyStr.head p) →
  from_option (λ c, PyStr.mem c "/" = false) True (PyStr.last p) →
  ∃ obj s1 new,
    Logger.__init__ app (Some p) cfg s0 = (Normal obj, s1) ∧
    sink_calls (rr (exec s (mkWorld obj s1)).2) = sink_calls s1 ++ new ∧
    Forall (λ c, logged_under p c = true) new.
Proof.
  intros NE Hh Hl. rewrite init_eq.
  pose proof NE as ->%PyStrFacts.truthy_true.
  eexists _, _.
  match goal with
  | |- context [exec s ?w] =>
      destruct (exec_effects s EmptyString p w) as (_ & new & Hc & _ & Hp)
  end.
  exists new. split; [reflexivity|]. split; [exact Hc|].
  apply Hp; try done. cbn [self entity_prefix].
  rewrite <- (PyStrFacts.append_nil_r p) at 1. apply startswith_app.
Qed.

End Programs.

(** The block of the usage example, with no timeline set but ["step"]. *)
Lemma program_keeps_timeline_witness :
  let s := SSeq (SLogScalar "math/sine_wave" 0.5 (Some 7))
             (SContext "validation_phase"
                (SSeq (SLogScalar "metrics/accuracy" 0.88 (Some 1))
                      (SText Info "Validation started"))) in
  let w := mkWorld (mkLogger "app" EmptyString ∅)
             (mkSink [] {["wall" := Sequence 3]}) in
  sink_time (rr (exec (H := no_float_repr) s w).2) !! "wall"
    = sink_time (rr w) !! "wall" ∧
  ∃ new,
    sink_calls (rr (exec (H := no_float_repr) s w).2) = sink_calls (rr w) ++ new ∧
    Forall (stamped "wall" (sink_time (rr w) !! "wall")) new.
Proof.
  apply (program_keeps_timeline (H := no_float_repr)). reflexivity.
Defined.

Lemma program_logs_under_prefix_witness :
  ∃ obj s1 new,
    Logger.__init__ "app" (Some "experiment_01") None fresh_sink
      = (Normal obj, s1) ∧
    sink_calls
      (rr (exec (H := no_float_repr)
             (SSeq (SText Warning "w")
                (SContext "/validation_phase/"
                   (SSeq (SLogScalar "/metrics/accuracy/" 0.88 (Some 1))
                         (SLogImage "generated/gradient" PyNone))))
             (mkWorld obj s1)).2)
      = sink_calls s1 ++ new ∧
    Forall (λ c, logged_under "experiment_01" c = true) new.
Proof.
  apply (program_logs_under_prefix (H := no_float_repr)); simpl; done.
Defined.

(** ** Documents, once more *)

Section MoreDocuments.
Context `{FloatRepr} `{PyLimits}.

(** X8: how [log_dict] fails.  It raises [e] exactly when [json.dumps]
    raised something [except Exception] does not catch, which is [e], or
    raised an [Exception] and [str(dictionary)] then raised [e]; when it
    raises, nothing has reached the sink and the world is untouched.  It
    never completes by returning a value. *)
Theorem log_dict_raises (path : string) (dictionary : list (PyVal * PyVal))
    (w : World) (e : exn) :
  ((Logger.log_dict path dictionary w).1 = Raise e ↔
   (Json.dumps (PyDict dictionary) 2 PyRepr.str = Err e ∧ is_Exception e = false) ∨
   (∃ e0, Json.dumps (PyDict dictionary) 2 PyRepr.str = Err e0 ∧
          is_Exception e0 = true ∧
          PyRepr.str (PyDict dictionary) = Err e)) ∧
  ((Logger.log_dict path dictionary w).1 = Raise e →
   (Logger.log_dict path dictionary w).2 = w) ∧
  (∀ v, (Logger.log_dict path dictionary w).1 ≠ Return v).
Proof.
  rewrite log_dict_eq.
  destruct (Json.dumps _ _ _) as [content|e0].
  - split; [|done]. split; [done|]. intros [[? _] | (? & ? & _)]; done.
  - destruct (is_Exception e0) eqn:E0.
    + destruct (PyRepr.str _) as [content|e1].
      * split; [|done]. split; [done|].
        intros [[[= ->] ?] | (? & _ & _ & ?)]; congruence.
      * split; [|done]. split.
        -- intros [= ->]. right. by exists e0.
        -- intros [[[= ->] ?] | (? & _ & _ & [= ->])]; [congruence | done].
    + split; [|done]. split.
      * intros [= ->]. by left.
      * intros [[[= ->] _] | (? & [= ->] & ? & _)]; [done | congruence].
Qed.

Lemma int_to_str_fits (n : Z) : int_fits n = true → int_to_str n = Ok (pretty n).
Proof. unfold int_to_str. by intros ->. Qed.

Lemma encode_key_native (k : PyVal) :
  match k with
  | PyString _ | PyFloat _ | PyBool _ | PyNone | PyInt _ => true
  | _ => false
  end = true →
  all_ints int_fits k = true →
  ∃ s, Json.encode_key k = Ok s.
Proof.
  destruct k as [ | [|] | | | | | | | ]; simpl; try done; try by eexists.
  intros _ Hn. rewrite int_to_str_fits by done. by eexists.
Qed.

Lemma foldr_max_ge {A} (f : A → nat) (l : list A) (x : A) :
  x ∈ l → (f x ≤ foldr (λ y deepest, Nat.max (f y) deepest) 0 l)%nat.
Proof.
  induction 1 as [x l | x y l _ IH]; simpl; lia.
Qed.

Lemma nesting_value_le (items : list (PyVal * PyVal)) (k x : PyVal) :
  (k, x) ∈ items →
  (nesting x ≤ foldr (λ '(k, x) deepest,
                        Nat.max (Nat.max (nesting k) (nesting x)) deepest)
                 0 items)%nat.
Proof.
  induction items as [|[k' x'] items IH]; intros Hin.
  - by apply elem_of_nil in Hin.
  - apply elem_of_cons in Hin as [[= <- <-] | Hin]; simpl; [lia|].
    specialize (IH Hin). lia.
Qed.

(** Plain data within the limits is encoded. *)
Lemma iterencode_native (indent level : nat)
    (default : PyVal → result string) (v : PyVal) :
  json_native v = true → all_ints int_fits v = true →
  (level + nesting v ≤ json_depth_limit)%nat →
  ∃ s, Json.iterencode indent default level v = Ok s.
Proof.
  revert level.
  induction v as [ | b | n | x | s | items IH | items IH | items IH | o]
    using PyVal_nested_ind; intros level Hv Hints Hdeep;
    cbn [Json.iterencode json_native all_ints nesting] in *;
    try done; try by eexists.
  - destruct b; by eexists.
  - rewrite int_to_str_fits by done. by eexists.
  - assert ((json_depth_limit <=? level)%nat = false) as ->
      by (apply Nat.leb_gt; lia).
    destruct items as [|v0 items0]; [by eexists|].
    match goal with
    | |- context [mapM ?f (v0 :: items0)] =>
        destruct (mapM_total f (v0 :: items0)) as [ys ->]; [|by eexists]
    end.
    apply Forall_forall. intros v Hin. eapply Forall_forall in IH; [|done].
    apply IH.
    + eapply forallb_forall in Hv; [done | by apply list_elem_of_In].
    + eapply forallb_forall in Hints; [done | by apply list_elem_of_In].
    + pose proof (foldr_max_ge nesting _ _ Hin). lia.
  - assert ((json_depth_limit <=? level)%nat = false) as ->
      by (apply Nat.leb_gt; lia).
    destruct items as [|v0 items0]; [by eexists|].
    match goal with
    | |- context [mapM ?f (v0 :: items0)] =>
        destruct (mapM_total f (v0 :: items0)) as [ys ->]; [|by eexists]
    end.
    apply Forall_forall. intros v Hin. eapply Forall_forall in IH; [|done].
    apply IH.
    + eapply forallb_forall in Hv; [done | by apply list_elem_of_In].
    + eapply forallb_forall in Hints; [done | by apply list_elem_of_In].
    + pose proof (foldr_max_ge nesting _ _ Hin). lia.
  - assert ((json_depth_limit <=? level)%nat = false) as ->
      by (apply Nat.leb_gt; lia).
    destruct items as [|kv0 items0]; [by eexists|].
    match goal with
    | |- context [mapM ?f (kv0 :: items0)] =>
        destruct (mapM_total f (kv0 :: items0)) as [ys ->]; [|by eexists]
    end.
    apply Forall_forall. intros [k x] Hin.
    eapply Forall_forall in IH; [|done]. destruct IH as [_ IHx].
    eapply forallb_forall in Hv; [|by apply list_elem_of_In].
    eapply forallb_forall in Hints; [|by apply list_elem_of_In].
    apply andb_true_iff in Hv as [Hk Hx].
    apply andb_true_iff in Hints as [Hik Hix]. simpl in IHx.
    destruct (encode_key_native k Hk Hik) as [sk ->].
    destruct (IHx (S level) Hx Hix) as [sx ->]; [|by eexists].
    pose proof (nesting_value_le _ _ _ Hin). lia.
Qed.

(** X9: a dictionary of plain data (strings, numbers, booleans, [None],
    lists, tuples and dictionaries whose keys are strings, numbers,
    booleans or [None]) whose integers stay within the digit limit and
    whose nesting stays within what the recursion limit allows the
    encoder is logged as its JSON text: [json.dumps] returns and
    [log_dict] forwards exactly what it returned, never the [str]
    fallback.  The empty dictionary is logged as ["{}"]. *)
Theorem log_dict_plain_data (path : string) (dictionary : list (PyVal * PyVal))
    (w : World) :
  json_native (PyDict dictionary) = true →
  all_ints int_fits (PyDict dictionary) = true →
  (nesting (PyDict dictionary) ≤ json_depth_limit)%nat →
  (∃ content,
     Json.dumps (PyDict dictionary) 2 PyRepr.str = Ok content ∧
     Logger.log_dict path dictionary w
     = (Normal (),
        logged (resolved path w) (TextDocument content "text/markdown") w)) ∧
  Logger.log_dict path [] w
  = (Normal (), logged (resolved path w) (TextDocument "{}" "text/markdown") w).
Proof.
  intros Hv Hints Hdeep. split.
  - destruct (iterencode_native 2 0 PyRepr.str (PyDict dictionary) Hv Hints Hdeep)
      as [content Hc].
    exists content. rewrite log_dict_eq. unfold Json.dumps. by rewrite Hc.
  - rewrite log_dict_eq. unfold Json.dumps. cbn [Json.iterencode].
    assert ((json_depth_limit <=? 0)%nat = false) as ->; [|done].
    apply Nat.leb_gt. cbn [nesting] in Hdeep. lia.
Qed.

End MoreDocuments.

Lemma log_dict_raises_witness :
  (Logger.log_dict (H := no_float_repr) "cfg"
     [(PyString "row",
       PyObj (mkPyObject (Err ValueError) (Err (OtherException "ReprError")) true))]
     (mkWorld (mkLogger "app" "run" ∅) fresh_sink)).2
  = mkWorld (mkLogger "app" "run" ∅) fresh_sink.
Proof.
  apply (log_dict_raises (H := no_float_repr) "cfg"
           [(PyString "row",
             PyObj (mkPyObject (Err ValueError) (Err (OtherException "ReprError")) true))]
           (mkWorld (mkLogger "app" "run" ∅) fresh_sink)
           (OtherException "ReprError")).
  reflexivity.
Defined.

(** The configuration dictionary of the usage example. *)
Lemma log_dict_plain_data_witness :
  ∃ content,
    Json.dumps (H := no_float_repr)
      (PyDict [(PyString "model_type", PyString "CNN"); (PyString "layers", PyInt 5);
               (PyString "optimizer", PyString "Adam")]) 2
      (PyRepr.str (H := no_float_repr))
      = Ok content ∧
    Logger.log_dict (H := no_float_repr) "experiment/config"
      [(PyString "model_type", PyString "CNN"); (PyString "layers", PyInt 5);
       (PyString "optimizer", PyString "Adam")]
      (mkWorld (mkLogger "chronicle_test_example" EmptyString ∅) fresh_sink)
    = (Normal (),
       logged (resolved "experiment/config"
                 (mkWorld (mkLogger "chronicle_test_example" EmptyString ∅)
                    fresh_sink))
         (TextDocument content "text/markdown")
         (mkWorld (mkLogger "chronicle_test_example" EmptyString ∅) fresh_sink)).
Proof.
  apply (log_dict_plain_data (H := no_float_repr) "experiment/config"
           [(PyString "model_type", PyString "CNN"); (PyString "layers", PyInt 5);
            (PyString "optimizer", PyString "Adam")]
           (mkWorld (mkLogger "chronicle_test_example" EmptyString ∅) fresh_sink)).
  - reflexivity.
  - reflexivity.
  - vm_compute. lia.
Defined.

(** ** The constructor, once more *)

(** X10: the constructor reads two options and no other.  Adding or
    changing any other key of the configuration changes nothing of what
    reaches the sink. *)
Theorem init_ignores_other_options (app : string) (prefix : option string)
    (cfg : gmap string PyVal) (key : string) (value : PyVal) (s : Sink) :
  key ≠ "spawn_viewer" → key ≠ "save_path" →
  (Logger.__init__ app prefix (Some (<[key := value]> cfg)) s).2
  = (Logger.__init__ app prefix (Some cfg) s).2.
Proof.
  intros Hspawn Hsave. rewrite !init_eq. cbn [snd from_option id].
  by rewrite !lookup_insert_ne.
Qed.

Lemma init_ignores_other_options_witness :
  (Logger.__init__ "app" None
     (Some (<["verbose" := PyBool true]> {["spawn_viewer" := PyBool false]}))
     fresh_sink).2
  = (Logger.__init__ "app" None (Some {["spawn_viewer" := PyBool false]})
       fresh_sink).2.
Proof.
  apply (init_ignores_other_options "app" None
           {["spawn_viewer" := PyBool false]} "verbose" (PyBool true) fresh_sink);
    discriminate.
Defined.
